(** * Moodicious recipe buddy: the view-layer controllers

    A shallow embedding of the three widgets of the repository:

    - the voice-guidance panel ([VoiceGuidance.tsx], first document),
    - the rule-based chat widget (same file, second document),
    - the two recipe cards ([src/unnamed/part_000] and [part_001]).

    React state becomes a record; a render is a snapshot of that record, and
    every callback that the source creates inside a render (an event handler,
    a timer callback, an [onend] handler) carries the snapshot it closed over.
    What lives outside React state (the speech synthesiser, the [useRef]
    cells, pending timers, toasts) is a second record that is threaded
    through the operations.  Console output is not modelled. *)

From Stdlib Require Import String Ascii List ZArith NArith Bool Lia.
From Stdlib Require Import QArith_base DecimalString.
Import ListNotations.

Open Scope string_scope.
Open Scope Z_scope.

(** ** The JavaScript string operations the widgets call

    A character of a Rocq string stands for one UTF-16 code unit below 256
    (the Latin-1 range); on that range [toLowerCase] is a character map and
    the white space of [trim] and of the regular expression class [\s] is
    the set of seven code units below. *)
Module JS.

Definition code (c : ascii) : N := N_of_ascii c.

Definition between (lo hi n : N) : bool := (N.leb lo n && N.leb n hi)%bool.

(** [A-Z], and the upper-case letters of U+00C0..U+00DE except U+00D7. *)
Definition isUpper (c : ascii) : bool :=
  let n := code c in
  (between 65 90 n || between 192 214 n || between 216 222 n)%bool.

Definition toLowerChar (c : ascii) : ascii :=
  if isUpper c then ascii_of_N (code c + 32) else c.

Fixpoint toLowerCase (s : string) : string :=
  match s with
  | EmptyString => EmptyString
  | String c s' => String (toLowerChar c) (toLowerCase s')
  end.

(** White space and line terminators: TAB, LF, VT, FF, CR, SP, NBSP. *)
Definition isSpace (c : ascii) : bool :=
  let n := code c in
  (between 9 13 n || N.eqb n 32 || N.eqb n 160)%bool.

(** The class [\w] of a regular expression without the [u] flag. *)
Definition isWord (c : ascii) : bool :=
  let n := code c in
  (between 48 57 n || between 65 90 n || N.eqb n 95 || between 97 122 n)%bool.

(** [s.includes(sub)]. *)
Fixpoint includes (s sub : string) : bool :=
  match s with
  | EmptyString => prefix sub EmptyString
  | String _ s' => (prefix sub s || includes s' sub)%bool
  end.

Fixpoint trimStart (s : string) : string :=
  match s with
  | EmptyString => EmptyString
  | String c s' => if isSpace c then trimStart s' else s
  end.

Fixpoint trimEnd (s : string) : string :=
  match s with
  | EmptyString => EmptyString
  | String c s' =>
      match trimEnd s' with
      | EmptyString => if isSpace c then EmptyString else String c EmptyString
      | t => String c t
      end
  end.

Definition trim (s : string) : string := trimEnd (trimStart s).

(** [s.substr(0, n)]. *)
Definition substr0 (n : nat) (s : string) : string := substring 0 n s.

(** [String(n)] and [`${n}`] for an integral number. *)
Definition numToString (z : Z) : string := NilZero.string_of_int (Z.to_int z).

(** [s.replace(/[^\w\s]/gi, '')]. *)
Fixpoint stripNonWord (s : string) : string :=
  match s with
  | EmptyString => EmptyString
  | String c s' =>
      if (isWord c || isSpace c)%bool then String c (stripNonWord s')
      else stripNonWord s'
  end.

(** [s.replace(/\s+/g, '+')]: every maximal run of white space becomes one
    plus sign. *)
Fixpoint plusForSpacesFrom (inRun : bool) (s : string) : string :=
  match s with
  | EmptyString => EmptyString
  | String c s' =>
      if isSpace c then
        if inRun then plusForSpacesFrom true s'
        else String "+" (plusForSpacesFrom true s')
      else String c (plusForSpacesFrom false s')
  end.

Definition plusForSpaces (s : string) : string := plusForSpacesFrom false s.

Definition hexDigit (n : N) : ascii :=
  if N.ltb n 10 then ascii_of_N (48 + n) else ascii_of_N (55 + n).

Definition percent (byte : N) : string :=
  String "%" (String (hexDigit (N.div byte 16))
                     (String (hexDigit (N.modulo byte 16)) EmptyString)).

(** The characters [encodeURIComponent] leaves alone:
    letters, digits and [- _ . ! ~ * ' ( )]. *)
Definition isUnreserved (c : ascii) : bool :=
  let n := code c in
  (between 48 57 n || between 65 90 n || between 97 122 n
   || N.eqb n 45 || N.eqb n 95 || N.eqb n 46 || N.eqb n 33 || N.eqb n 126
   || N.eqb n 42 || N.eqb n 39 || N.eqb n 40 || N.eqb n 41)%bool.

(** Every other code unit is written as the percent-escaped bytes of its
    UTF-8 encoding: one byte below 128, two bytes from 128 to 255. *)
Definition encodeChar (c : ascii) : string :=
  let n := code c in
  if isUnreserved c then String c EmptyString
  else if N.ltb n 128 then percent n
  else percent (192 + N.div n 64) ++ percent (128 + N.modulo n 64).

Fixpoint encodeURIComponent (s : string) : string :=
  match s with
  | EmptyString => EmptyString
  | String c s' => encodeChar c ++ encodeURIComponent s'
  end.

(** JavaScript truthiness of a string: only the empty string is falsy. *)
Definition truthy (s : string) : bool := negb (String.eqb s EmptyString).

End JS.

(** The pending timers of a widget without the one that just ran. *)
Fixpoint removeNth {A : Type} (n : nat) (l : list A) : list A :=
  match n, l with
  | _, [] => []
  | O, _ :: l' => l'
  | S n', x :: l' => x :: removeNth n' l'
  end.

(** ** The chat widget ([ChatBot], second document of [VoiceGuidance.tsx]) *)
Module ChatBot.

Inductive Sender : Set := user | bot.

(** [interface Message]; [timestamp] is the clock reading in milliseconds
    that [new Date()] wraps. *)
Record Message : Set := mkMessage {
  id : string;
  text : string;
  sender : Sender;
  timestamp : Z
}.

(** The callbacks the widget hands to [setTimeout], each with what it closed
    over: the mood effect's two nested timeouts close over [moodResponse],
    the reply timeout of [handleSendMessage] over the render's [message]. *)
Inductive Task : Set :=
| MoodTyping (moodResponse : string)
| MoodReply (moodResponse : string)
| BotReply (message : string).

Record Timer : Set := mkTimer { delay : Z; task : Task }.

(** The [useState] cells of the component, and the timers it has pending. *)
Record State : Set := mkState {
  isOpen : bool;
  isMinimized : bool;
  message : string;
  messages : list Message;
  isTyping : bool;
  timers : list Timer
}.

Definition initial : State := mkState false false "" [] false [].

Definition setIsOpen (b : bool) (st : State) : State :=
  mkState b (isMinimized st) (message st) (messages st) (isTyping st) (timers st).
Definition setIsMinimized (b : bool) (st : State) : State :=
  mkState (isOpen st) b (message st) (messages st) (isTyping st) (timers st).
Definition setMessage (m : string) (st : State) : State :=
  mkState (isOpen st) (isMinimized st) m (messages st) (isTyping st) (timers st).
Definition setMessages (f : list Message -> list Message) (st : State) : State :=
  mkState (isOpen st) (isMinimized st) (message st) (f (messages st))
          (isTyping st) (timers st).
Definition setIsTyping (b : bool) (st : State) : State :=
  mkState (isOpen st) (isMinimized st) (message st) (messages st) b (timers st).
Definition setTimeout (k : Task) (ms : Z) (st : State) : State :=
  mkState (isOpen st) (isMinimized st) (message st) (messages st) (isTyping st)
          (timers st ++ [mkTimer ms k])%list.
Definition withTimers (l : list Timer) (st : State) : State :=
  mkState (isOpen st) (isMinimized st) (message st) (messages st) (isTyping st) l.

Definition welcomeText : string :=
  "Hello! I'm your recipe assistant. How can I help you today?".

(** The welcome effect.  It stores the one-element list, not an update of
    the previous list, under the guard that the rendered list is empty. *)
Definition welcomeEffect (now : Z) (st : State) : State :=
  if (isOpen st && (length (messages st) =? 0)%nat)%bool then
    let welcomeMessage := mkMessage (JS.numToString now) welcomeText bot now in
    setMessages (fun _ => [welcomeMessage]) st
  else st.

(** The mood effect; [currentMood] is the optional prop, and
    [getChatbotResponse] the helper imported from [utils/moodRecipeData]. *)
Definition moodEffect (getChatbotResponse : string -> string)
    (currentMood : option string) (st : State) : State :=
  match currentMood with
  | Some mood =>
      if (JS.truthy mood && isOpen st)%bool then
        let moodResponse := getChatbotResponse mood in
        setTimeout (MoodTyping moodResponse) 500 st
      else st
  | None => st
  end.

Definition toggleChat (st : State) : State :=
  if negb (isOpen st) then setIsMinimized false (setIsOpen true st)
  else setIsMinimized (negb (isMinimized st)) st.

Definition closeChat (st : State) : State := setIsOpen false st.

Definition defaultResponse : string :=
  "I'm not sure how to respond to that. Could you ask about recipes or cooking?".
Definition recipeResponse : string :=
  "I can help you find recipes! Try selecting a mood first, or you can ask me about specific ingredients or dishes.".
Definition helloResponse : string :=
  "Hello there! How can I help with your cooking today?".
Definition thankResponse : string :=
  "You're welcome! Let me know if you need anything else.".
Definition moodResponseText : string :=
  "Your mood can greatly influence what foods might satisfy you. Try selecting a mood to see matching recipes!".

(** The keyword branching inside the reply timeout. *)
Definition botResponse (message : string) : string :=
  let lowerMessage := JS.toLowerCase message in
  if (JS.includes lowerMessage "recipe" || JS.includes lowerMessage "cook"
      || JS.includes lowerMessage "food" || JS.includes lowerMessage "meal")%bool
  then recipeResponse
  else if (JS.includes lowerMessage "hello" || JS.includes lowerMessage "hi"
           || JS.includes lowerMessage "hey")%bool
  then helloResponse
  else if JS.includes lowerMessage "thank" then thankResponse
  else if JS.includes lowerMessage "mood" then moodResponseText
  else defaultResponse.

Definition handleSendMessage (now : Z) (st : State) : State :=
  if String.eqb (JS.trim (message st)) "" then st
  else
    let newUserMessage := mkMessage (JS.numToString now) (message st) user now in
    setTimeout (BotReply (message st)) 1500
      (setIsTyping true
        (setMessage ""
          (setMessages (fun prev => (prev ++ [newUserMessage])%list) st))).

(** What a timer callback does when it runs at clock reading [now]. *)
Definition runTask (now : Z) (k : Task) (st : State) : State :=
  match k with
  | MoodTyping moodResponse =>
      setTimeout (MoodReply moodResponse) 1500 (setIsTyping true st)
  | MoodReply moodResponse =>
      let newMessage := mkMessage (JS.numToString now) moodResponse bot now in
      setIsTyping false (setMessages (fun prev => (prev ++ [newMessage])%list) st)
  | BotReply message =>
      let newBotMessage :=
        mkMessage (JS.numToString (now + 100)) (botResponse message) bot now in
      setIsTyping false (setMessages (fun prev => (prev ++ [newBotMessage])%list) st)
  end.

(** The events of the widget.  A timer fires at any moment after it was set;
    an effect runs after a render whose dependencies changed, which the
    relation over-approximates by letting it run after any event. *)
Inductive Event : Set :=
| ToggleChat
| CloseChat
| Typed (value : string)
| Submit (now : Z)
| WelcomeEffect (now : Z)
| MoodEffect (currentMood : option string)
| Fire (n : nat) (now : Z).

Definition handle (getChatbotResponse : string -> string)
    (e : Event) (st : State) : State :=
  match e with
  | ToggleChat => toggleChat st
  | CloseChat => closeChat st
  | Typed value => setMessage value st
  | Submit now => handleSendMessage now st
  | WelcomeEffect now => welcomeEffect now st
  | MoodEffect currentMood => moodEffect getChatbotResponse currentMood st
  | Fire n now =>
      match nth_error (timers st) n with
      | Some t => runTask now (task t) (withTimers (removeNth n (timers st)) st)
      | None => st
      end
  end.

Definition run (getChatbotResponse : string -> string)
    (es : list Event) (st : State) : State :=
  fold_left (fun s e => handle getChatbotResponse e s) es st.

(** The claim's words, for comparison with [botResponse]: a priority list of
    rules, each a set of keywords with its canned reply. *)
Definition Rule : Set := (list string * string)%type.

Definition cannedRules : list Rule :=
  [ (["recipe"; "cook"; "food"; "meal"], recipeResponse);
    (["hello"; "hi"; "hey"], helloResponse);
    (["thank"], thankResponse);
    (["mood"], moodResponseText) ].

(** [kw] occurs in [msg] up to letter case: some substring of [msg]
    lower-cases to [kw]. *)
Definition occursIgnoringCase (kw msg : string) : Prop :=
  exists pre mid post, msg = pre ++ mid ++ post /\ JS.toLowerCase mid = kw.

Inductive chosen : list Rule -> string -> string -> Prop :=
| chosen_default msg : chosen [] msg defaultResponse
| chosen_here kws reply rest msg kw :
    In kw kws -> occursIgnoringCase kw msg ->
    chosen ((kws, reply) :: rest) msg reply
| chosen_later kws reply rest msg r :
    (forall kw, In kw kws -> ~ occursIgnoringCase kw msg) ->
    chosen rest msg r ->
    chosen ((kws, reply) :: rest) msg r.

(** What each event adds to the message list. *)
Definition appended (e : Event) (st : State) : list Message :=
  match e with
  | Submit now =>
      if String.eqb (JS.trim (message st)) "" then []
      else [mkMessage (JS.numToString now) (message st) user now]
  | WelcomeEffect now =>
      if (isOpen st && (length (messages st) =? 0)%nat)%bool
      then [mkMessage (JS.numToString now) welcomeText bot now] else []
  | Fire n now =>
      match nth_error (timers st) n with
      | Some (mkTimer _ (MoodReply r)) => [mkMessage (JS.numToString now) r bot now]
      | Some (mkTimer _ (BotReply m)) =>
          [mkMessage (JS.numToString (now + 100)) (botResponse m) bot now]
      | _ => []
      end
  | _ => []
  end.

(** The strings that are empty or made of white space only. *)
Fixpoint allSpace (s : string) : bool :=
  match s with
  | EmptyString => true
  | String c s' => (JS.isSpace c && allSpace s')%bool
  end.

End ChatBot.

(** ** The voice-guidance panel ([VoiceGuidance], first document) *)
Module VoiceGuidance.

(** What the widget reads of a [SpeechSynthesisVoice]. *)
Record Voice : Set := mkVoice { voiceName : string; voiceLang : string }.

Definition languageOptions : list (string * string) :=
  [ ("en-US", "English (US)"); ("es-ES", "Spanish"); ("fr-FR", "French");
    ("de-DE", "German"); ("it-IT", "Italian"); ("zh-CN", "Chinese");
    ("ja-JP", "Japanese"); ("ko-KR", "Korean"); ("hi-IN", "Hindi");
    ("pt-BR", "Portuguese"); ("ru-RU", "Russian"); ("ar-SA", "Arabic");
    ("th-TH", "Thai"); ("tr-TR", "Turkish"); ("vi-VN", "Vietnamese") ].

(** The [useState] cells.  A value of this type is also what a callback
    created during a render closes over. *)
Record Render : Set := mkRender {
  isMuted : bool;
  isPlaying : bool;
  currentStep : Z;
  isExpanded : bool;
  selectedLanguage : string;
  showLanguageSelector : bool;
  availableVoices : list Voice
}.

(** A [SpeechSynthesisUtterance] as [speakCurrentStep] fills it in; [uEnv]
    is the render its [onend] handler closed over. *)
Record Utterance : Set := mkUtterance {
  uText : string;
  uLang : string;
  uVoice : option Voice;
  uRate : Q;
  uPitch : Q;
  uEnv : Render
}.

Record Toast : Set := mkToast {
  toastTitle : string;
  toastDescription : string;
  toastDuration : Z
}.

(** Timer callbacks: the delayed advance set by [onend], the delayed start
    set by [togglePlayPause], and the delayed [speakCurrentStep] set by
    [changeLanguage], which is the function of the render that set it. *)
Inductive Task : Set :=
| Advance
| StartPlaying
| Respeak (env : Render).

Record Timer : Set := mkTimer { delay : Z; task : Task }.

(** The component between two events: its latest render, the two [useRef]
    cells ([synthReady] says whether [synth.current] is non-null), what the
    synthesiser is speaking, every utterance passed to [speak] so far, the
    pending timers and the toasts shown. *)
Record State : Set := mkState {
  render : Render;
  synthReady : bool;
  utteranceRef : option Utterance;
  speaking : option Utterance;
  spoken : list Utterance;
  timers : list Timer;
  toasts : list Toast
}.

Definition withRender (f : Render -> Render) (st : State) : State :=
  mkState (f (render st)) (synthReady st) (utteranceRef st) (speaking st)
          (spoken st) (timers st) (toasts st).

Definition setIsMuted (b : bool) : State -> State :=
  withRender (fun r => mkRender b (isPlaying r) (currentStep r) (isExpanded r)
    (selectedLanguage r) (showLanguageSelector r) (availableVoices r)).
Definition setIsPlaying (b : bool) : State -> State :=
  withRender (fun r => mkRender (isMuted r) b (currentStep r) (isExpanded r)
    (selectedLanguage r) (showLanguageSelector r) (availableVoices r)).
(** [setCurrentStep] is only ever called with an updater function. *)
Definition setCurrentStep (f : Z -> Z) : State -> State :=
  withRender (fun r => mkRender (isMuted r) (isPlaying r) (f (currentStep r))
    (isExpanded r) (selectedLanguage r) (showLanguageSelector r)
    (availableVoices r)).
Definition setIsExpanded (b : bool) : State -> State :=
  withRender (fun r => mkRender (isMuted r) (isPlaying r) (currentStep r) b
    (selectedLanguage r) (showLanguageSelector r) (availableVoices r)).
Definition setSelectedLanguage (l : string) : State -> State :=
  withRender (fun r => mkRender (isMuted r) (isPlaying r) (currentStep r)
    (isExpanded r) l (showLanguageSelector r) (availableVoices r)).
Definition setShowLanguageSelector (b : bool) : State -> State :=
  withRender (fun r => mkRender (isMuted r) (isPlaying r) (currentStep r)
    (isExpanded r) (selectedLanguage r) b (availableVoices r)).
Definition setAvailableVoices (vs : list Voice) : State -> State :=
  withRender (fun r => mkRender (isMuted r) (isPlaying r) (currentStep r)
    (isExpanded r) (selectedLanguage r) (showLanguageSelector r) vs).

Definition setUtteranceRef (u : option Utterance) (st : State) : State :=
  mkState (render st) (synthReady st) u (speaking st) (spoken st) (timers st)
          (toasts st).
Definition setSpeaking (u : option Utterance) (st : State) : State :=
  mkState (render st) (synthReady st) (utteranceRef st) u (spoken st)
          (timers st) (toasts st).
Definition withTimers (l : list Timer) (st : State) : State :=
  mkState (render st) (synthReady st) (utteranceRef st) (speaking st)
          (spoken st) l (toasts st).
Definition setTimeout (k : Task) (ms : Z) (st : State) : State :=
  withTimers (timers st ++ [mkTimer ms k]) st.
Definition toast (title description : string) (duration : Z) (st : State) : State :=
  mkState (render st) (synthReady st) (utteranceRef st) (speaking st)
          (spoken st) (timers st) (toasts st ++ [mkToast title description duration]).

(** [synth.cancel()]: the synthesiser drops what it is speaking.  Its
    [onend] handler is not run: a cancelled utterance gets an error event. *)
Definition cancel (st : State) : State := setSpeaking None st.

(** [synth.speak(u)], always called right after [cancel]. *)
Definition speak (u : Utterance) (st : State) : State :=
  mkState (render st) (synthReady st) (utteranceRef st) (Some u)
          (spoken st ++ [u]) (timers st) (toasts st).

(** [instructions[i]], [None] standing for [undefined]. *)
Definition instructionAt (instructions : list string) (i : Z) : option string :=
  if i <? 0 then None else nth_error instructions (Z.to_nat i).

Definition lastIndex (instructions : list string) : Z :=
  Z.of_nat (List.length instructions) - 1.

Definition matchesLanguage (selected : string) (voice : Voice) : bool :=
  JS.includes (JS.toLowerCase (voiceLang voice))
              (JS.substr0 2 (JS.toLowerCase selected)).

Definition isPreferred (voice : Voice) : bool :=
  (JS.includes (voiceName voice) "Google"
   || JS.includes (voiceName voice) "Female"
   || JS.includes (voiceName voice) "Samantha")%bool.

Definition chooseVoice (env : Render) : option Voice :=
  match filter (matchesLanguage (selectedLanguage env)) (availableVoices env) with
  | [] => None
  | first :: rest =>
      match find isPreferred (first :: rest) with
      | Some preferredVoice => Some preferredVoice
      | None => Some first
      end
  end.

(** [speakCurrentStep] of the render [env]: every React value it reads is
    the one of that render, the refs are the shared ones. *)
Definition speakCurrentStep (instructions : list string) (env : Render)
    (st : State) : State :=
  match instructionAt instructions (currentStep env) with
  | Some instruction =>
      if (negb (synthReady st) || isMuted env || negb (JS.truthy instruction))%bool
      then st
      else
        let stepText :=
          "Step " ++ JS.numToString (currentStep env + 1) ++ ": " ++ instruction in
        let u := mkUtterance stepText (selectedLanguage env) (chooseVoice env)
                             (Qmake 9 10) (Qmake 11 10) env in
        speak u (setUtteranceRef (Some u) (cancel st))
  | None => st
  end.

(** The [onend] handler of an utterance. *)
Definition onend (instructions : list string) (u : Utterance) (st : State) : State :=
  let env := uEnv u in
  if ((currentStep env <? lastIndex instructions) && isPlaying env)%bool then
    setTimeout Advance 1000 st
  else if ((currentStep env =? lastIndex instructions) && isPlaying env)%bool then
    toast "Cooking Complete!"
          "All cooking steps have been read. Enjoy your meal!" 5000
          (setIsPlaying false st)
  else st.

(** The effect on [isPlaying, isMuted, currentStep, selectedLanguage]. *)
Definition playbackEffect (instructions : list string) (env : Render)
    (st : State) : State :=
  if (isPlaying env && negb (isMuted env))%bool then
    speakCurrentStep instructions env st
  else
    match utteranceRef st with
    | Some _ => if synthReady st then cancel st else st
    | None => st
    end.

Definition togglePlayPause (env : Render) (st : State) : State :=
  let st1 :=
    if (negb (isPlaying env) && isMuted env)%bool then
      setTimeout StartPlaying 100 (setIsMuted false st)
    else setIsPlaying (negb (isPlaying env)) st in
  if negb (isPlaying env) then
    toast "Voice Guidance Started"
          "I'll guide you through each step of the recipe." 3000 st1
  else st1.

Definition toggleMute (env : Render) (st : State) : State :=
  let st1 := setIsMuted (negb (isMuted env)) st in
  let st2 := if (negb (isMuted env) && isPlaying env)%bool
             then setIsPlaying false st1 else st1 in
  toast (if isMuted env then "Voice Guidance Enabled" else "Voice Guidance Muted")
        (if isMuted env then "You'll now hear step-by-step instructions."
         else "Voice guidance is now muted.")
        3000 st2.

Definition nextStep (instructions : list string) (env : Render) (st : State) : State :=
  if currentStep env <? lastIndex instructions
  then setCurrentStep (fun prev => prev + 1) st else st.

Definition prevStep (env : Render) (st : State) : State :=
  if currentStep env >? 0 then setCurrentStep (fun prev => prev - 1) st else st.

Definition toggleExpand (env : Render) (st : State) : State :=
  setIsExpanded (negb (isExpanded env)) st.

Definition languageName (langCode : string) : string :=
  match find (fun lang => String.eqb (fst lang) langCode) languageOptions with
  | Some lang => if JS.truthy (snd lang) then snd lang else langCode
  | None => langCode
  end.

Definition changeLanguage (env : Render) (langCode : string) (st : State) : State :=
  let st1 := setShowLanguageSelector false (setSelectedLanguage langCode st) in
  let st2 := toast "Language Changed"
                   ("Voice guidance language set to " ++ languageName langCode)
                   3000 st1 in
  if isPlaying env then
    setTimeout (Respeak env) 100 (if synthReady st2 then cancel st2 else st2)
  else st2.

(** The icon drawn on the mute button. *)
Inductive Icon : Set := VolumeX | Volume2.
Definition muteIcon (env : Render) : Icon :=
  if isMuted env then VolumeX else Volume2.

(** What a timer callback does when it runs. *)
Definition runTask (instructions : list string) (k : Task) (st : State) : State :=
  match k with
  | Advance => setCurrentStep (fun prev => prev + 1) st
  | StartPlaying => setIsPlaying true st
  | Respeak env => speakCurrentStep instructions env st
  end.

(** The events the component reacts to.  [UtteranceEnd] is the synthesiser
    finishing the utterance it is speaking; [Fire n] is the [n]-th pending
    timer running, which can happen at any moment after it was set. *)
Inductive Event : Set :=
| VoicesChanged (voices : list Voice)
| TogglePlayPause
| ToggleMute
| NextStep
| PrevStep
| ToggleExpand
| ToggleLanguageSelector
| ChangeLanguage (langCode : string)
| UtteranceEnd
| Fire (n : nat).

Definition handle (instructions : list string) (e : Event) (st : State) : State :=
  let env := render st in
  match e with
  | VoicesChanged voices =>
      if synthReady st then setAvailableVoices voices st else st
  | TogglePlayPause => togglePlayPause env st
  | ToggleMute => toggleMute env st
  | NextStep => nextStep instructions env st
  | PrevStep => prevStep env st
  | ToggleExpand => toggleExpand env st
  | ToggleLanguageSelector =>
      setShowLanguageSelector (negb (showLanguageSelector env)) st
  | ChangeLanguage langCode => changeLanguage env langCode st
  | UtteranceEnd =>
      match speaking st with
      | Some u => onend instructions u (setSpeaking None st)
      | None => st
      end
  | Fire n =>
      match nth_error (timers st) n with
      | Some t =>
          runTask instructions (task t)
                  (withTimers (removeNth n (timers st)) st)
      | None => st
      end
  end.

(** The dependency list of the playback effect changed between two renders. *)
Definition depsChanged (before after : Render) : bool :=
  negb (Bool.eqb (isPlaying before) (isPlaying after)
        && Bool.eqb (isMuted before) (isMuted after)
        && (currentStep before =? currentStep after)
        && String.eqb (selectedLanguage before) (selectedLanguage after))%bool.

(** After the state updates of an event React renders once and runs the
    playback effect of the new render if its dependencies changed. *)
Definition commit (instructions : list string) (before : Render) (st : State) : State :=
  if depsChanged before (render st)
  then playbackEffect instructions (render st) st else st.

(** One event: the handlers of the latest render run, then React commits. *)
Definition dispatch (instructions : list string) (e : Event) (st : State) : State :=
  commit instructions (render st) (handle instructions e st).

Definition run (instructions : list string) (es : list Event) (st : State) : State :=
  fold_left (fun s e => dispatch instructions e s) es st.

(** The component after mounting: the initial [useState] values, the mount
    effect having stored [window.speechSynthesis] ([synthPresent] says
    whether the browser has one) and loaded [voices]; the playback effect
    of the first render finds nothing playing and no utterance to cancel. *)
Definition mount (synthPresent : bool) (voices : list Voice) : State :=
  mkState (mkRender false false 0 false "en-US" false
                    (if synthPresent then voices else []))
          synthPresent None None [] [] [].

(** Every callback that can still run [onend] or [speakCurrentStep] was
    created in a render with playback on. *)
Definition closuresPlaying (st : State) : Prop :=
  (forall u, speaking st = Some u -> isPlaying (uEnv u) = true)
  /\ (forall t env, In t (timers st) -> task t = Respeak env ->
       isPlaying env = true).

(** The index addresses an instruction. *)
Definition inBounds (instructions : list string) (env : Render) : Prop :=
  0 <= currentStep env <= lastIndex instructions.

(** The [disabled] attributes of the two navigation buttons. *)
Definition prevDisabled (env : Render) : bool := currentStep env =? 0.
Definition nextDisabled (instructions : list string) (env : Render) : bool :=
  currentStep env =? lastIndex instructions.

(** The utterance [speakCurrentStep] builds in the render [env] for the
    instruction text [instruction]. *)
Definition utteranceFor (env : Render) (instruction : string) : Utterance :=
  mkUtterance
    ("Step " ++ JS.numToString (currentStep env + 1) ++ ": " ++ instruction)
    (selectedLanguage env) (chooseVoice env) (Qmake 9 10) (Qmake 11 10) env.

(** [u] reads a non-empty instruction of the list, in the language and at
    the index of a render that was playing and not muted. *)
Definition readsInstruction (instructions : list string) (u : Utterance) : Prop :=
  isMuted (uEnv u) = false /\ isPlaying (uEnv u) = true
  /\ exists instruction,
       instructionAt instructions (currentStep (uEnv u)) = Some instruction
       /\ instruction <> "" /\ u = utteranceFor (uEnv u) instruction.

(** The synthesiser speaks only the utterance the ref holds, which is the
    last one handed to [speak]. *)
Definition synthCoherent (st : State) : Prop :=
  forall u, speaking st = Some u ->
    utteranceRef st = Some u /\ synthReady st = true
    /\ exists earlier, spoken st = (earlier ++ [u])%list.

(** [st'] differs from [st] in nothing the synthesiser has been given. *)
Definition quiet (st st' : State) : Prop :=
  spoken st' = spoken st /\ utteranceRef st' = utteranceRef st
  /\ synthReady st' = synthReady st
  /\ (speaking st' = speaking st \/ speaking st' = None).

(** The events of reading a recipe through after [play] was pressed: each
    utterance ends and, except after the last, the advance timer runs. *)
Fixpoint listenThrough (remaining : nat) : list Event :=
  match remaining with
  | O => [UtteranceEnd]
  | S n => UtteranceEnd :: Fire 0 :: listenThrough n
  end.

(** The texts of the steps from index [k] on. *)
Fixpoint stepTextsFrom (k : Z) (instructions : list string) : list string :=
  match instructions with
  | [] => []
  | instruction :: rest =>
      ("Step " ++ JS.numToString (k + 1) ++ ": " ++ instruction)
        :: stepTextsFrom (k + 1) rest
  end.

End VoiceGuidance.

(** ** The recipe card without preloading ([src/unnamed/part_000]) *)
Module RecipeCard0.

(** The image cells of the card. *)
Record State : Set := mkState { imageError : bool; imageUrl : string }.

Definition initial : State := mkState false "".

Definition setImageError (b : bool) (st : State) : State := mkState b (imageUrl st).
Definition setImageUrl (u : string) (st : State) : State := mkState (imageError st) u.

Definition searchQuery (recipeName : string) : string :=
  JS.plusForSpaces (JS.stripNonWord (JS.toLowerCase recipeName)).

Definition getRecipeImageUrl (recipeName : string) : string :=
  "https://source.unsplash.com/featured/?" ++ searchQuery recipeName
    ++ ",food,dish,recipe&fit=crop&w=600&h=350".

(** [random] is the text the template literal writes for the number that
    [Math.random()] returned at this call. *)
Definition getBackupImageUrl (recipeName random : string) : string :=
  "https://source.unsplash.com/random/?" ++ searchQuery recipeName
    ++ ",food&fit=crop&w=600&h=350&random=" ++ random.

(** The effect on [recipe.name]. *)
Definition nameEffect (recipeName : string) (st : State) : State :=
  setImageUrl (getRecipeImageUrl recipeName) st.

(** The [onError] callback of the [<img>] element. *)
Definition handleImageError (recipeName random : string) (st : State) : State :=
  setImageUrl (getBackupImageUrl recipeName random) (setImageError true st).

(** The tag row: [recipe.tags.slice(0, 3)] and, when there are more than
    three tags, the number written in the "+N more" badge.  The card of
    [src/unnamed/part_001] has the same lines. *)
Definition shownTags (tags : list string) : list string := firstn 3 tags.

Definition moreBadge (tags : list string) : option nat :=
  if (3 <? length tags)%nat then Some (length tags - 3)%nat else None.

(** The characters a cleaned search query can hold: [a-z], [0-9], [_], [+]. *)
Definition isQueryChar (c : ascii) : bool :=
  let n := JS.code c in
  (JS.between 97 122 n || JS.between 48 57 n || N.eqb n 95 || N.eqb n 43)%bool.

Fixpoint allChars (p : ascii -> bool) (s : string) : bool :=
  match s with
  | EmptyString => true
  | String c s' => (p c && allChars p s')%bool
  end.

Definition startsWithPlus (s : string) : bool :=
  match s with
  | String c _ => Ascii.eqb c "+"
  | EmptyString => false
  end.

End RecipeCard0.

(** ** The recipe card with preloading ([src/unnamed/part_001]) *)
Module RecipeCard1.

(** The timeout callback of the loading effect with what it closed over:
    the [imageLoading] of the render the effect ran in and [recipe.name]. *)
Record Timer : Set := mkTimer {
  timerId : nat;
  delay : Z;
  closedImageLoading : bool;
  closedName : string
}.

(** The [Image] object of the effect; its [onload] and [onerror] handlers
    close over [timeoutId]. *)
Record Preload : Set := mkPreload { src : string; timeoutId : nat }.

(** The [recipe.name] of the latest render, the image cells of the card,
    the timers pending, the identifier the next [setTimeout] returns, the
    preloads whose load or error event has not arrived, and the timeout the
    cleanup of the last effect run clears. *)
Record State : Set := mkState {
  name : string;
  imageLoading : bool;
  imageUrl : string;
  timers : list Timer;
  nextTimerId : nat;
  preloads : list Preload;
  cleanup : option nat
}.

(** The first render of a card for [recipeName], before its effects. *)
Definition initial (recipeName : string) : State :=
  mkState recipeName true "" [] 1%nat [] None.

Definition setImageLoading (b : bool) (st : State) : State :=
  mkState (name st) b (imageUrl st) (timers st) (nextTimerId st) (preloads st)
          (cleanup st).
Definition setImageUrl (u : string) (st : State) : State :=
  mkState (name st) (imageLoading st) u (timers st) (nextTimerId st)
          (preloads st) (cleanup st).
Definition clearTimeout (tid : nat) (st : State) : State :=
  mkState (name st) (imageLoading st) (imageUrl st)
          (filter (fun t => negb (Nat.eqb (timerId t) tid)) (timers st))
          (nextTimerId st) (preloads st) (cleanup st).
Definition withPreloads (l : list Preload) (st : State) : State :=
  mkState (name st) (imageLoading st) (imageUrl st) (timers st)
          (nextTimerId st) l (cleanup st).
Definition withName (recipeName : string) (st : State) : State :=
  mkState recipeName (imageLoading st) (imageUrl st) (timers st)
          (nextTimerId st) (preloads st) (cleanup st).

Definition loadingPlaceholder : string :=
  "https://placehold.co/600x350/f8f9fa/6c757d?text=Loading...".
Definition preloadErrorUrl : string :=
  "https://images.unsplash.com/photo-1504674900247-0877df9cc836?auto=format&fit=crop&w=600&h=350&q=80".
Definition imageErrorUrl : string :=
  "https://images.unsplash.com/photo-1606787366850-de6330128bfc?auto=format&fit=crop&w=600&h=350&q=80".

(** [options[0]]; [now] is the reading of [Date.now()]. *)
Definition getRecipeImageUrl (recipeName : string) (now : Z) : string :=
  "https://source.unsplash.com/featured/?" ++ JS.encodeURIComponent recipeName
    ++ ",food,dish&fit=crop&w=600&h=350&random=" ++ JS.numToString now.

Definition getBackupImageUrl (recipeName : string) : string :=
  "https://placehold.co/600x350/f8f9fa/6c757d?text="
    ++ JS.encodeURIComponent recipeName.

(** The loading effect of a render whose [recipe.name] is [name st] and
    whose [imageLoading] is [renderedLoading]. *)
Definition loadEffect (now : Z) (renderedLoading : bool) (st : State) : State :=
  if JS.truthy (name st) then
    let tid := nextTimerId st in
    mkState (name st) true loadingPlaceholder
            (timers st ++ [mkTimer tid 5000 renderedLoading (name st)])
            (S tid)
            (preloads st ++ [mkPreload (getRecipeImageUrl (name st) now) tid])
            (Some tid)
  else
    mkState (name st) (imageLoading st) (imageUrl st) (timers st)
            (nextTimerId st) (preloads st) None.

Definition runCleanup (st : State) : State :=
  match cleanup st with
  | Some tid => clearTimeout tid st
  | None => st
  end.

(** The callback of the 5000 ms timeout. *)
Definition onTimeout (t : Timer) (st : State) : State :=
  if closedImageLoading t then
    setImageLoading false (setImageUrl (getBackupImageUrl (closedName t)) st)
  else st.

Definition onload (img : Preload) (st : State) : State :=
  setImageLoading false (setImageUrl (src img) (clearTimeout (timeoutId img) st)).

Definition onerror (img : Preload) (st : State) : State :=
  setImageLoading false (setImageUrl preloadErrorUrl (clearTimeout (timeoutId img) st)).

(** The [onError] callback of the [<img>] element. *)
Definition handleImageError (st : State) : State := setImageUrl imageErrorUrl st.

(** [Rerendered recipeName now]: the parent renders the card with a recipe
    of that name, at clock reading [now]. *)
Inductive Event : Set :=
| Rerendered (recipeName : string) (now : Z)
| ImageLoaded (n : nat)
| ImageFailed (n : nat)
| TimeoutFired (tid : nat)
| ElementError.

Definition handle (e : Event) (st : State) : State :=
  match e with
  | Rerendered recipeName now =>
      if String.eqb recipeName (name st) then st
      else loadEffect now (imageLoading st) (withName recipeName (runCleanup st))
  | ImageLoaded n =>
      match nth_error (preloads st) n with
      | Some img => onload img (withPreloads (removeNth n (preloads st)) st)
      | None => st
      end
  | ImageFailed n =>
      match nth_error (preloads st) n with
      | Some img => onerror img (withPreloads (removeNth n (preloads st)) st)
      | None => st
      end
  | TimeoutFired tid =>
      match find (fun t => Nat.eqb (timerId t) tid) (timers st) with
      | Some t => onTimeout t (clearTimeout tid st)
      | None => st
      end
  | ElementError => handleImageError st
  end.

(** The card after mounting: the effect of the first render has run. *)
Definition mount (recipeName : string) (now : Z) : State :=
  loadEffect now (imageLoading (initial recipeName)) (initial recipeName).

Definition run (es : list Event) (st : State) : State :=
  fold_left (fun s e => handle e s) es st.

(** Every pending timeout is the one the cleanup of the last effect run
    clears, and there is at most one. *)
Definition timersTidy (st : State) : Prop :=
  (forall t, In t (timers st) -> cleanup st = Some (timerId t))
  /\ (length (timers st) <= 1)%nat.

(** No event of [es] renders the card with a non-empty recipe name. *)
Definition neverNamed (es : list Event) : Prop :=
  forall recipeName now, In (Rerendered recipeName now) es -> recipeName = "".

End RecipeCard1.

(** ** Sample inputs for the concrete runs below *)
Module Samples.

Definition twoSteps : list string := ["Boil water"; "Add pasta"].

(** The panel of a two-step recipe after the play button was pressed. *)
Definition playing : VoiceGuidance.State :=
  VoiceGuidance.dispatch twoSteps VoiceGuidance.TogglePlayPause
                         (VoiceGuidance.mount true []).

Definition someVoices : list VoiceGuidance.Voice :=
  [ VoiceGuidance.mkVoice "Monica" "es-ES";
    VoiceGuidance.mkVoice "Daniel" "en-GB";
    VoiceGuidance.mkVoice "Google US English" "en-US" ].

(** A render with the sample voices loaded and English selected. *)
Definition englishRender : VoiceGuidance.Render :=
  VoiceGuidance.mkRender false false 0 false "en-US" false someVoices.

(** An open chat with a question typed in. *)
Definition asking : ChatBot.State :=
  ChatBot.mkState true false "Any recipe?" [] false [].

(** A stand-in for the helper of [utils/moodRecipeData]. *)
Definition sampleMoodResponse (mood : string) : string :=
  "Recipes for a " ++ mood ++ " mood".

End Samples.

(** * Properties *)

(** ** Strings *)
Section StringFacts.

Example toLowerCase_ex : JS.toLowerCase "Thank YOU!" = "thank you!".
Proof. reflexivity. Qed.

Example includes_ex : JS.includes "which dish" "hi" = true.
Proof. reflexivity. Qed.

Example trim_ex : JS.trim "  a b  " = "a b".
Proof. reflexivity. Qed.

Example numToString_ex : JS.numToString 12 = "12" /\ JS.numToString 0 = "0".
Proof. split; reflexivity. Qed.

Example encode_ex : JS.encodeURIComponent "Mac & Cheese" = "Mac%20%26%20Cheese".
Proof. reflexivity. Qed.

Example searchQuery_ex :
  JS.plusForSpaces (JS.stripNonWord (JS.toLowerCase "Mac & Cheese!")) = "mac+cheese".
Proof. reflexivity. Qed.

Lemma prefix_app (a b : string) :
  prefix a b = true <-> exists post, b = a ++ post.
Proof.
  revert b; induction a as [|c a IH]; intros b.
  - split; [exists b; reflexivity|]. destruct b; reflexivity.
  - destruct b as [|d b]; simpl.
    + split; [discriminate|]. intros [post H]; discriminate.
    + destruct (ascii_dec c d) as [->|Hne].
      * rewrite IH. split; intros [post H]; exists post.
        -- now rewrite H.
        -- now inversion H.
      * split; [discriminate|]. intros [post H]. inversion H. congruence.
Qed.

Lemma includes_app (s sub : string) :
  JS.includes s sub = true <-> exists pre post, s = pre ++ sub ++ post.
Proof.
  induction s as [|c s IH]; cbn [JS.includes].
  - rewrite prefix_app. split.
    + intros [post H]. exists "", post. exact H.
    + intros [pre [post H]]. destruct pre; [|discriminate].
      exists post. exact H.
  - rewrite orb_true_iff, IH, prefix_app. split.
    + intros [[post H]|[pre [post H]]].
      * exists "", post. exact H.
      * exists (String c pre), post. simpl. now rewrite H.
    + intros [pre [post H]]. destruct pre as [|d pre]; simpl in H.
      * left. exists post. exact H.
      * right. inversion H. exists pre, post. reflexivity.
Qed.

Lemma toLowerCase_app (a b : string) :
  JS.toLowerCase (a ++ b) = JS.toLowerCase a ++ JS.toLowerCase b.
Proof. induction a as [|c a IH]; simpl; [reflexivity|now rewrite IH]. Qed.

Lemma toLowerCase_split (s a b : string) :
  JS.toLowerCase s = a ++ b ->
  exists a' b', s = a' ++ b' /\ JS.toLowerCase a' = a /\ JS.toLowerCase b' = b.
Proof.
  revert s; induction a as [|c a IH]; intros s H.
  - exists "", s. auto.
  - destruct s as [|d s]; [discriminate|]. simpl in H. inversion H as [[Hc Hs]].
    destruct (IH s Hs) as [a' [b' [E [Ha Hb]]]].
    exists (String d a'), b'. subst. simpl. auto.
Qed.

(** Looking for a lower-case keyword in the lower-cased message is looking
    for it in the message up to letter case. *)
Lemma includes_lower (msg kw : string) :
  JS.includes (JS.toLowerCase msg) kw = true <-> ChatBot.occursIgnoringCase kw msg.
Proof.
  rewrite includes_app. unfold ChatBot.occursIgnoringCase. split.
  - intros [pre [post H]].
    destruct (toLowerCase_split _ _ _ H) as [pre' [rest [E [_ Hrest]]]].
    destruct (toLowerCase_split _ _ _ Hrest) as [mid [post' [E' [Hmid _]]]].
    exists pre', mid, post'. subst rest. auto.
  - intros [pre [mid [post [E Hmid]]]].
    exists (JS.toLowerCase pre), (JS.toLowerCase post).
    now rewrite E, !toLowerCase_app, Hmid.
Qed.

Lemma trimStart_allSpace (s : string) :
  ChatBot.allSpace s = true -> JS.trimStart s = "".
Proof.
  induction s as [|c s IH]; simpl; [reflexivity|].
  intros H. apply andb_true_iff in H as [Hc Hs]. now rewrite Hc, IH.
Qed.

Lemma trim_allSpace (s : string) :
  ChatBot.allSpace s = true -> JS.trim s = "".
Proof. intros H. unfold JS.trim. now rewrite trimStart_allSpace. Qed.

Lemma trimEnd_empty (s : string) :
  JS.trimEnd s = "" -> ChatBot.allSpace s = true.
Proof.
  induction s as [|c s IH]; simpl; [reflexivity|].
  destruct (JS.trimEnd s); [|discriminate].
  destruct (JS.isSpace c); [|discriminate]. intros _. now rewrite IH.
Qed.

Lemma trimStart_nonspace (s : string) :
  ChatBot.allSpace (JS.trimStart s) = true -> ChatBot.allSpace s = true.
Proof.
  induction s as [|c s IH]; simpl; [reflexivity|].
  destruct (JS.isSpace c) eqn:Hc; simpl; [exact IH|].
  now rewrite Hc.
Qed.

(** [trim] leaves nothing exactly of the strings made of white space. *)
Lemma trim_empty_iff (s : string) :
  JS.trim s = "" <-> ChatBot.allSpace s = true.
Proof.
  split; [|apply trim_allSpace].
  intros H. apply trimStart_nonspace, trimEnd_empty, H.
Qed.

End StringFacts.

(** ** The chat widget *)
Section ChatBotFacts.

Import ChatBot.

Variable getChatbotResponse : string -> string.

Lemma chosen_functional (rules : list Rule) (msg r r' : string) :
  chosen rules msg r -> chosen rules msg r' -> r = r'.
Proof.
  intros H; revert r'; induction H as [msg|kws reply rest msg kw Hin Hocc
                                       |kws reply rest msg r Hnone Hrest IH];
    intros r' H'; inversion H'; subst; try reflexivity;
    try match goal with
        | Hnone : forall kw, In kw ?kws -> ~ _, Hin : In ?k ?kws |- _ =>
            exfalso; exact (Hnone k Hin ltac:(assumption))
        end.
  now apply IH.
Qed.

Local Ltac keywordFound H :=
  eapply chosen_here; [|apply includes_lower; exact H]; simpl; tauto.

Local Ltac keywordsAbsent :=
  simpl; intros kw Hin Hocc; apply includes_lower in Hocc;
  repeat (destruct Hin as [<-|Hin]; [congruence|]); destruct Hin.

Lemma botResponse_chosen (msg : string) :
  chosen cannedRules msg (botResponse msg).
Proof.
  unfold botResponse, cannedRules.
  destruct (JS.includes (JS.toLowerCase msg) "recipe") eqn:Hrecipe;
    [keywordFound Hrecipe|].
  destruct (JS.includes (JS.toLowerCase msg) "cook") eqn:Hcook;
    [keywordFound Hcook|].
  destruct (JS.includes (JS.toLowerCase msg) "food") eqn:Hfood;
    [keywordFound Hfood|].
  destruct (JS.includes (JS.toLowerCase msg) "meal") eqn:Hmeal;
    [keywordFound Hmeal|].
  cbn [orb]. apply chosen_later; [keywordsAbsent|].
  destruct (JS.includes (JS.toLowerCase msg) "hello") eqn:Hhello;
    [keywordFound Hhello|].
  destruct (JS.includes (JS.toLowerCase msg) "hi") eqn:Hhi;
    [keywordFound Hhi|].
  destruct (JS.includes (JS.toLowerCase msg) "hey") eqn:Hhey;
    [keywordFound Hhey|].
  cbn [orb]. apply chosen_later; [keywordsAbsent|].
  destruct (JS.includes (JS.toLowerCase msg) "thank") eqn:Hthank;
    [keywordFound Hthank|].
  apply chosen_later; [keywordsAbsent|].
  destruct (JS.includes (JS.toLowerCase msg) "mood") eqn:Hmood;
    [keywordFound Hmood|].
  apply chosen_later; [keywordsAbsent|].
  apply chosen_default.
Qed.

Lemma handleSendMessage_schedules (now : Z) (st : State) :
  JS.trim (message st) <> "" ->
  timers (handleSendMessage now st)
  = (timers st ++ [mkTimer 1500 (BotReply (message st))])%list.
Proof.
  intros H. unfold handleSendMessage.
  destruct (String.eqb_spec (JS.trim (message st)) ""); [contradiction|].
  reflexivity.
Qed.

(** C4. The text of the bot's reply to a user message is the reply of the
    first rule, in the order recipe/cook/food/meal, hello/hi/hey, thank,
    mood, one of whose keywords occurs in the message up to letter case, and
    the fixed default reply when no keyword occurs; the timer callback that
    [handleSendMessage] sets stores exactly that text as a bot message. *)
Theorem C4_reply_chosen_by_keyword_priority (msg : string) :
  (forall r, chosen cannedRules msg r <-> r = botResponse msg)
  /\ (forall now st,
        messages (runTask now (BotReply msg) st)
        = (messages st
           ++ [mkMessage (JS.numToString (now + 100)) (botResponse msg) bot now])%list).
Proof.
  split.
  - intros r; split.
    + intros H. exact (chosen_functional _ _ _ _ H (botResponse_chosen msg)).
    + intros ->. apply botResponse_chosen.
  - reflexivity.
Qed.

Example botResponse_priority :
  botResponse "Thanks for the RECIPE" = recipeResponse
  /\ botResponse "Hey, thank you" = helloResponse
  /\ botResponse "many thanks" = thankResponse
  /\ botResponse "I am in a good mood" = moodResponseText
  /\ botResponse "42" = defaultResponse
  /\ botResponse "this one" = helloResponse.
Proof. repeat split; reflexivity. Qed.

Lemma handle_appends (e : Event) (st : State) :
  messages (handle getChatbotResponse e st) = (messages st ++ appended e st)%list.
Proof.
  destruct e as [| |value|now|now|mood|n now]; simpl;
    try (symmetry; apply app_nil_r).
  - unfold toggleChat. destruct (negb (isOpen st)); simpl; now rewrite app_nil_r.
  - unfold handleSendMessage.
    destruct (String.eqb (JS.trim (message st)) ""); simpl;
      [now rewrite app_nil_r|reflexivity].
  - unfold welcomeEffect. destruct (isOpen st); simpl;
      [|now rewrite app_nil_r].
    destruct (messages st) as [|m l] eqn:E; simpl;
      [reflexivity|now rewrite app_nil_r].
  - unfold moodEffect. destruct mood as [mood|]; [|now rewrite app_nil_r].
    destruct (JS.truthy mood && isOpen st)%bool; simpl; now rewrite app_nil_r.
  - destruct (nth_error (timers st) n) as [[d [r|r|m]]|]; simpl;
      solve [reflexivity | now rewrite app_nil_r].
Qed.

(** C5. Whatever events the chat widget handles (opening and closing, typing,
    sending, the welcome and mood effects, every timer callback), the message
    list afterwards is the list before with new messages added at its end. *)
Theorem C5_messages_append_in_arrival_order (es : list Event) (st : State) :
  exists new : list Message,
    messages (run getChatbotResponse es st) = (messages st ++ new)%list.
Proof.
  unfold run. revert st; induction es as [|e es IH]; intros st; simpl.
  - exists []. now rewrite app_nil_r.
  - destruct (IH (handle getChatbotResponse e st)) as [new Hnew].
    exists (appended e st ++ new)%list.
    now rewrite Hnew, handle_appends, app_assoc.
Qed.

(** C10. Sending a message that is empty or made of white space only leaves
    the whole state as it was: no message, no typing indicator, no timer. *)
Theorem C10_blank_message_is_noop (now : Z) (st : State) :
  allSpace (message st) = true -> handleSendMessage now st = st.
Proof.
  intros H. unfold handleSendMessage.
  now rewrite (trim_allSpace _ H).
Qed.

End ChatBotFacts.

Lemma C10_blank_message_is_noop_witness :
  let st := ChatBot.mkState true false "   " [] false [] in
  ChatBot.allSpace (ChatBot.message st) = true
  /\ ChatBot.handleSendMessage 1700000000000 st = st.
Proof.
  intros st. split; [reflexivity|].
  apply (C10_blank_message_is_noop 1700000000000 st). reflexivity.
Defined.

(** ** The voice-guidance panel *)
Section VoiceGuidanceFacts.

Import VoiceGuidance.

Variable instructions : list string.

(** Speaking and cancelling touch the synthesiser and the refs only. *)
Lemma render_speakCurrentStep (env : Render) (st : State) :
  render (speakCurrentStep instructions env st) = render st.
Proof.
  unfold speakCurrentStep.
  destruct (instructionAt instructions (currentStep env)); [|reflexivity].
  destruct (negb (synthReady st) || isMuted env || negb (JS.truthy s))%bool;
    reflexivity.
Qed.

Lemma render_playbackEffect (env : Render) (st : State) :
  render (playbackEffect instructions env st) = render st.
Proof.
  unfold playbackEffect.
  destruct (isPlaying env && negb (isMuted env))%bool.
  - apply render_speakCurrentStep.
  - destruct (utteranceRef st); [destruct (synthReady st)|]; reflexivity.
Qed.

Lemma render_commit (before : Render) (st : State) :
  render (commit instructions before st) = render st.
Proof.
  unfold commit. destruct (depsChanged before (render st));
    [apply render_playbackEffect|reflexivity].
Qed.

Lemma render_dispatch (e : Event) (st : State) :
  render (dispatch instructions e st) = render (handle instructions e st).
Proof. apply render_commit. Qed.

Lemma timers_speakCurrentStep (env : Render) (st : State) :
  timers (speakCurrentStep instructions env st) = timers st.
Proof.
  unfold speakCurrentStep.
  destruct (instructionAt instructions (currentStep env)); [|reflexivity].
  destruct (negb (synthReady st) || isMuted env || negb (JS.truthy s))%bool;
    reflexivity.
Qed.

Lemma timers_commit (before : Render) (st : State) :
  timers (commit instructions before st) = timers st.
Proof.
  unfold commit, playbackEffect.
  destruct (depsChanged before (render st)); [|reflexivity].
  destruct (isPlaying (render st) && negb (isMuted (render st)))%bool.
  - apply timers_speakCurrentStep.
  - destruct (utteranceRef st); [destruct (synthReady st)|]; reflexivity.
Qed.

(** An utterance that [speakCurrentStep] hands to the synthesiser carries
    the language, the step text and the [onend] closure of its render. *)
Lemma speakCurrentStep_utterance (env : Render) (st : State) (u : Utterance) :
  spoken (speakCurrentStep instructions env st) = (spoken st ++ [u])%list ->
  uLang u = selectedLanguage env /\ uEnv u = env
  /\ speaking (speakCurrentStep instructions env st) = Some u.
Proof.
  unfold speakCurrentStep.
  destruct (instructionAt instructions (currentStep env)) as [i|].
  - destruct (negb (synthReady st) || isMuted env || negb (JS.truthy i))%bool.
    + intros H. rewrite <- (app_nil_r (spoken st)) in H at 1.
      apply app_inv_head in H. discriminate.
    + simpl. intros H. apply app_inv_head in H. inversion H. auto.
  - intros H. rewrite <- (app_nil_r (spoken st)) in H at 1.
    apply app_inv_head in H. discriminate.
Qed.

Lemma removeNth_last {A : Type} (l : list A) (x : A) :
  removeNth (length l) (l ++ [x]) = l.
Proof. induction l as [|y l IH]; simpl; [reflexivity|now rewrite IH]. Qed.

Lemma nth_error_last {A : Type} (l : list A) (x : A) :
  nth_error (l ++ [x]) (length l) = Some x.
Proof. induction l as [|y l IH]; simpl; [reflexivity|exact IH]. Qed.

Lemma lastIndex_nonempty : instructions <> [] -> 0 <= lastIndex instructions.
Proof.
  unfold lastIndex. destruct instructions; [contradiction|]. simpl length. lia.
Qed.

Lemma nextStep_inBounds (st : State) :
  inBounds instructions (render st) ->
  inBounds instructions (render (nextStep instructions (render st) st)).
Proof.
  unfold nextStep, inBounds.
  destruct (Z.ltb_spec (currentStep (render st)) (lastIndex instructions));
    simpl; lia.
Qed.

Lemma prevStep_inBounds (st : State) :
  inBounds instructions (render st) ->
  inBounds instructions (render (prevStep (render st) st)).
Proof.
  unfold prevStep, inBounds. rewrite Z.gtb_ltb.
  destruct (Z.ltb_spec 0 (currentStep (render st))); simpl; lia.
Qed.

Lemma currentStep_onend (u : Utterance) (st : State) :
  currentStep (render (onend instructions u st)) = currentStep (render st).
Proof.
  unfold onend.
  destruct ((currentStep (uEnv u) <? lastIndex instructions) && isPlaying (uEnv u))%bool;
    [reflexivity|].
  destruct ((currentStep (uEnv u) =? lastIndex instructions) && isPlaying (uEnv u))%bool;
    reflexivity.
Qed.

Lemma In_removeNth {A : Type} (n : nat) (l : list A) (x : A) :
  In x (removeNth n l) -> In x l.
Proof.
  revert n; induction l as [|y l IH]; intros [|n]; simpl; auto.
  intros [H|H]; eauto.
Qed.

Lemma closuresPlaying_frame (st st' : State) :
  (forall u, speaking st' = Some u -> speaking st = Some u) ->
  (forall t, In t (timers st') ->
     In t (timers st) \/ forall env, task t = Respeak env -> isPlaying env = true) ->
  closuresPlaying st -> closuresPlaying st'.
Proof.
  intros Hs Ht [Hu Htm]. split.
  - intros u H. apply Hu, Hs, H.
  - intros t env Hin Htask. destruct (Ht t Hin) as [H|H]; eauto.
Qed.

Lemma closuresPlaying_speak (env : Render) (st : State) :
  isPlaying env = true -> closuresPlaying st ->
  closuresPlaying (speakCurrentStep instructions env st).
Proof.
  intros Hp Hst. unfold speakCurrentStep.
  destruct (instructionAt instructions (currentStep env)) as [i|]; [|exact Hst].
  destruct (negb (synthReady st) || isMuted env || negb (JS.truthy i))%bool;
    [exact Hst|].
  destruct Hst as [_ Htm]. split; [|exact Htm].
  simpl. intros u H. inversion H. exact Hp.
Qed.

Lemma closuresPlaying_commit (before : Render) (st : State) :
  closuresPlaying st -> closuresPlaying (commit instructions before st).
Proof.
  intros Hst. unfold commit, playbackEffect.
  destruct (depsChanged before (render st)); [|exact Hst].
  destruct (isPlaying (render st)) eqn:Hp; simpl.
  - destruct (isMuted (render st)); simpl.
    + destruct (utteranceRef st); [destruct (synthReady st)|]; try exact Hst;
        (eapply closuresPlaying_frame; [| |exact Hst]; simpl; auto; discriminate).
    + now apply closuresPlaying_speak.
  - destruct (utteranceRef st); [destruct (synthReady st)|]; try exact Hst;
      (eapply closuresPlaying_frame; [| |exact Hst]; simpl; auto; discriminate).
Qed.

Local Ltac framed Hst :=
  eapply closuresPlaying_frame; [| |exact Hst]; simpl;
  [ solve [auto | discriminate]
  | intros t Hin; try (apply in_app_or in Hin as [Hin|[<-|[]]]); auto;
    right; simpl; intros env' Henv; solve [discriminate | congruence] ].

Lemma closuresPlaying_handle (e : Event) (st : State) :
  closuresPlaying st -> closuresPlaying (handle instructions e st).
Proof.
  intros Hst. destruct e as [voices| | | | | | |langCode| |n]; simpl.
  - destruct (synthReady st); [framed Hst|exact Hst].
  - unfold togglePlayPause.
    destruct (isPlaying (render st)), (isMuted (render st)); simpl; framed Hst.
  - unfold toggleMute.
    destruct (isPlaying (render st)), (isMuted (render st)); simpl; framed Hst.
  - unfold nextStep.
    destruct (currentStep (render st) <? lastIndex instructions);
      [framed Hst|exact Hst].
  - unfold prevStep.
    destruct (currentStep (render st) >? 0); [framed Hst|exact Hst].
  - framed Hst.
  - framed Hst.
  - unfold changeLanguage. destruct (isPlaying (render st)) eqn:Hp.
    + cbn [synthReady toast setShowLanguageSelector setSelectedLanguage withRender].
      destruct (synthReady st); framed Hst.
    + framed Hst.
  - destruct (speaking st) as [u|]; [|exact Hst]. unfold onend.
    destruct ((currentStep (uEnv u) <? lastIndex instructions) && isPlaying (uEnv u))%bool;
      [framed Hst|].
    destruct ((currentStep (uEnv u) =? lastIndex instructions) && isPlaying (uEnv u))%bool;
      framed Hst.
  - destruct (nth_error (timers st) n) as [[ms k]|] eqn:Hn; [|exact Hst].
    assert (Hrest : closuresPlaying (withTimers (removeNth n (timers st)) st)).
    { eapply closuresPlaying_frame; [| |exact Hst]; simpl; [auto|].
      intros t Hin. left. eapply In_removeNth, Hin. }
    destruct k as [| |env]; simpl.
    + framed Hrest.
    + framed Hrest.
    + apply closuresPlaying_speak; [|exact Hrest].
      destruct Hst as [_ Htm]. apply (Htm (mkTimer ms (Respeak env)));
        [eapply nth_error_In, Hn|reflexivity].
Qed.

(** In every state the panel can reach, the handler of the utterance being
    spoken saw playback on. *)
Lemma run_closuresPlaying (es : list Event) (synthPresent : bool)
    (voices : list Voice) :
  closuresPlaying (run instructions es (mount synthPresent voices)).
Proof.
  unfold run.
  assert (H0 : closuresPlaying (mount synthPresent voices)).
  { split; simpl; [discriminate|intros t env []]. }
  revert H0. generalize (mount synthPresent voices).
  induction es as [|e es IH]; intros st Hst; simpl; [exact Hst|].
  apply IH. unfold dispatch.
  apply closuresPlaying_commit, closuresPlaying_handle, Hst.
Qed.

(** C1, amended. For a non-empty instruction list the step index addresses
    an instruction after mounting, and [nextStep], [prevStep] and the end of
    an utterance keep it so; the delayed advance keeps it so when it runs
    while the index is still below the last one. *)
Theorem C1_index_in_bounds_nonempty :
  instructions <> [] ->
  (forall synthPresent voices,
      inBounds instructions (render (mount synthPresent voices)))
  /\ (forall st, inBounds instructions (render st) ->
        inBounds instructions (render (dispatch instructions NextStep st))
        /\ inBounds instructions (render (dispatch instructions PrevStep st))
        /\ inBounds instructions (render (dispatch instructions UtteranceEnd st)))
  /\ (forall st n ms,
        nth_error (timers st) n = Some (mkTimer ms Advance) ->
        inBounds instructions (render st) ->
        currentStep (render st) < lastIndex instructions ->
        inBounds instructions (render (dispatch instructions (Fire n) st))).
Proof.
  intros Hne. split; [|split].
  - intros synthPresent voices. unfold inBounds. simpl.
    pose proof (lastIndex_nonempty Hne). lia.
  - intros st Hst. rewrite !render_dispatch. simpl. repeat split.
    + now apply nextStep_inBounds.
    + now apply nextStep_inBounds.
    + now apply prevStep_inBounds.
    + now apply prevStep_inBounds.
    + destruct (speaking st) as [u|]; [|apply Hst].
      unfold inBounds. rewrite currentStep_onend. apply Hst.
    + destruct (speaking st) as [u|]; [|apply Hst].
      unfold inBounds. rewrite currentStep_onend. apply Hst.
  - intros st n ms Hn Hst Hlt. rewrite render_dispatch. simpl. rewrite Hn.
    unfold inBounds in *. simpl. lia.
Qed.

(** C3. When the utterance being spoken ends and its handler saw playback
    on: for a non-final step the index is left alone, one timer of 1000 ms
    is set, and that timer adds exactly one to the index; for the final step
    the index is left alone, no timer is set and playback is turned off. *)
Theorem C3_linear_step_advance (st : State) (u : Utterance) :
  speaking st = Some u ->
  isPlaying (uEnv u) = true ->
  let st' := dispatch instructions UtteranceEnd st in
  (currentStep (uEnv u) < lastIndex instructions ->
     render st' = render st
     /\ timers st' = (timers st ++ [mkTimer 1000 Advance])%list
     /\ currentStep (render (dispatch instructions (Fire (length (timers st))) st'))
        = currentStep (render st) + 1)
  /\ (currentStep (uEnv u) = lastIndex instructions ->
        currentStep (render st') = currentStep (render st)
        /\ isPlaying (render st') = false
        /\ timers st' = timers st).
Proof.
  intros Hu Hplay st'. subst st'. split.
  - intros Hlt.
    assert (E : handle instructions UtteranceEnd st
                = setTimeout Advance 1000 (setSpeaking None st)).
    { simpl. rewrite Hu. unfold onend. rewrite Hplay.
      destruct (Z.ltb_spec (currentStep (uEnv u)) (lastIndex instructions));
        [reflexivity|lia]. }
    assert (R : render (dispatch instructions UtteranceEnd st) = render st).
    { rewrite render_dispatch, E. reflexivity. }
    assert (T : timers (dispatch instructions UtteranceEnd st)
                = (timers st ++ [mkTimer 1000 Advance])%list).
    { unfold dispatch. rewrite timers_commit, E. reflexivity. }
    repeat split; [exact R|exact T|].
    rewrite render_dispatch. simpl. rewrite T, nth_error_last. simpl.
    now rewrite R.
  - intros Heq.
    assert (E : handle instructions UtteranceEnd st
                = toast "Cooking Complete!"
                    "All cooking steps have been read. Enjoy your meal!" 5000
                    (setIsPlaying false (setSpeaking None st))).
    { simpl. rewrite Hu. unfold onend. rewrite Hplay, Heq.
      rewrite Z.ltb_irrefl, Z.eqb_refl. reflexivity. }
    repeat split.
    + rewrite render_dispatch, E. reflexivity.
    + rewrite render_dispatch, E. reflexivity.
    + unfold dispatch. rewrite timers_commit, E. reflexivity.
Qed.

(** C7. One click on the mute button negates [isMuted], and with it swaps
    the icon; a second click brings [isMuted] back. *)
Theorem C7_toggleMute_negates (st : State) :
  let st1 := dispatch instructions ToggleMute st in
  let st2 := dispatch instructions ToggleMute st1 in
  isMuted (render st1) = negb (isMuted (render st))
  /\ muteIcon (render st1)
     = (if isMuted (render st) then Volume2 else VolumeX)
  /\ isMuted (render st2) = isMuted (render st).
Proof.
  intros st1 st2.
  assert (H : forall s, isMuted (render (dispatch instructions ToggleMute s))
                        = negb (isMuted (render s))).
  { intros s. rewrite render_dispatch. simpl. unfold toggleMute.
    destruct (negb (isMuted (render s)) && isPlaying (render s))%bool;
      reflexivity. }
  subst st1 st2. repeat split.
  - apply H.
  - unfold muteIcon. rewrite H. now destruct (isMuted (render st)).
  - rewrite !H. apply negb_involutive.
Qed.

End VoiceGuidanceFacts.

Section VoiceGuidanceTraces.

Import VoiceGuidance.

Import Samples.

(** C1, as stated, fails for the empty instruction list: the index starts
    at 0 whatever the list is, and no index addresses an instruction of the
    empty list. *)
Lemma C1_empty_list_out_of_bounds :
  ~ inBounds [] (render (mount true [])).
Proof. unfold inBounds, lastIndex. simpl. lia. Qed.

Lemma C1_index_in_bounds_nonempty_witness :
  twoSteps <> []
  /\ inBounds twoSteps (render (mount true []))
  /\ inBounds twoSteps (render (dispatch twoSteps NextStep (mount true [])))
  /\ inBounds twoSteps
       (render (dispatch twoSteps (Fire 0) (dispatch twoSteps UtteranceEnd playing))).
Proof.
  assert (Hne : twoSteps <> []) by discriminate.
  destruct (C1_index_in_bounds_nonempty twoSteps Hne) as [Hmount [Hnav Hfire]].
  split; [exact Hne|]. split; [apply Hmount|]. split.
  - apply (Hnav (mount true [])). apply Hmount.
  - apply (Hfire (dispatch twoSteps UtteranceEnd playing) 0%nat 1000).
    + reflexivity.
    + unfold inBounds, lastIndex. simpl. lia.
    + reflexivity.
Defined.

(** The delayed advance is not guarded when it runs: pressing "next" during
    its delay on the step before the last leaves the index past the end. *)
Example advance_after_nextStep_overshoots :
  let st := run twoSteps [UtteranceEnd; NextStep; Fire 0] playing in
  currentStep (render st) = 2 /\ lastIndex twoSteps = 1.
Proof. split; reflexivity. Qed.

Lemma C3_linear_step_advance_witness :
  let u1 := mkUtterance "Step 1: Boil water" "en-US" None (Qmake 9 10) (Qmake 11 10)
                        (render playing) in
  let atLast := run twoSteps [UtteranceEnd; Fire 0] playing in
  let u2 := mkUtterance "Step 2: Add pasta" "en-US" None (Qmake 9 10) (Qmake 11 10)
                        (render atLast) in
  (speaking playing = Some u1 /\ isPlaying (uEnv u1) = true
   /\ currentStep (uEnv u1) < lastIndex twoSteps
   /\ currentStep (render atLast) = 1)
  /\ (speaking atLast = Some u2 /\ isPlaying (uEnv u2) = true
      /\ currentStep (uEnv u2) = lastIndex twoSteps
      /\ currentStep (render (dispatch twoSteps UtteranceEnd atLast)) = 1
      /\ isPlaying (render (dispatch twoSteps UtteranceEnd atLast)) = false).
Proof.
  intros u1 atLast u2.
  assert (Hu1 : speaking playing = Some u1) by reflexivity.
  assert (Hp1 : isPlaying (uEnv u1) = true) by reflexivity.
  assert (Hs1 : currentStep (uEnv u1) < lastIndex twoSteps) by reflexivity.
  assert (Hu2 : speaking atLast = Some u2) by reflexivity.
  assert (Hp2 : isPlaying (uEnv u2) = true) by reflexivity.
  assert (Hs2 : currentStep (uEnv u2) = lastIndex twoSteps) by reflexivity.
  destruct (C3_linear_step_advance twoSteps playing u1 Hu1 Hp1) as [Hmid _].
  destruct (Hmid Hs1) as [_ [_ Hinc]].
  destruct (C3_linear_step_advance twoSteps atLast u2 Hu2 Hp2) as [_ Hfinal].
  destruct (Hfinal Hs2) as [Hsame [Hoff _]].
  split.
  - exact (conj Hu1 (conj Hp1 (conj Hs1 Hinc))).
  - exact (conj Hu2 (conj Hp2 (conj Hs2 (conj Hsame Hoff)))).
Defined.

End VoiceGuidanceTraces.

Section VoiceGuidanceLanguageAndMute.

Import VoiceGuidance.
Import Samples.

Variable instructions : list string.

(** [changeLanguage] stores the language it is given. *)
Lemma changeLanguage_selects (langCode : string) (st : State) :
  selectedLanguage (render (dispatch instructions (ChangeLanguage langCode) st))
  = langCode.
Proof.
  rewrite render_dispatch. simpl. unfold changeLanguage.
  destruct (isPlaying (render st)); [|reflexivity].
  cbn [synthReady toast setShowLanguageSelector setSelectedLanguage withRender].
  destruct (synthReady st); reflexivity.
Qed.

(** The mute guard: [speakCurrentStep] of a render that is muted does
    nothing at all. *)
Lemma speakCurrentStep_muted (env : Render) (st : State) :
  isMuted env = true -> speakCurrentStep instructions env st = st.
Proof.
  intros H. unfold speakCurrentStep.
  destruct (instructionAt instructions (currentStep env)); [|reflexivity].
  now rewrite H, orb_true_r.
Qed.

(** The playback effect of a muted render starts no speech, and stops the
    synthesiser once an utterance has been created. *)
Lemma playbackEffect_muted (env : Render) (st : State) :
  isMuted env = true ->
  spoken (playbackEffect instructions env st) = spoken st
  /\ (synthReady st = true -> utteranceRef st <> None ->
      speaking (playbackEffect instructions env st) = None).
Proof.
  intros H. unfold playbackEffect. rewrite H, andb_false_r.
  destruct (utteranceRef st) as [u|].
  - destruct (synthReady st); split; try reflexivity; discriminate.
  - split; [reflexivity|]. intros _ Hnone. now contradiction Hnone.
Qed.

(** C8 on the code. The panel is playing in English; the user selects
    Spanish; the timer that [changeLanguage] set runs.  The selected
    language is Spanish, the utterance of the new render was created in
    Spanish, and the one the timer created afterwards, which replaced it, is
    in English: the timer runs the [speakCurrentStep] of the render in which
    the language was still English. *)
Theorem C8_respeak_uses_previous_language :
  let st := run twoSteps [ChangeLanguage "es-ES"; Fire 0] playing in
  selectedLanguage (render st) = "es-ES"
  /\ map uLang (spoken st) = ["en-US"; "es-ES"; "en-US"]
  /\ option_map uLang (speaking st) = Some "en-US".
Proof. repeat split; reflexivity. Qed.

(** C9 on the code. The panel is playing; the user selects a language and
    then mutes within the 100 ms of the timer that [changeLanguage] set.
    When the timer runs the panel is muted and not playing, nothing is being
    spoken, and the timer's [speakCurrentStep], whose render was not muted,
    starts an utterance. *)
Theorem C9_respeak_speaks_while_muted :
  let muted := run twoSteps [ChangeLanguage "es-ES"; ToggleMute] playing in
  let st := dispatch twoSteps (Fire 0) muted in
  isMuted (render muted) = true
  /\ speaking muted = None
  /\ isMuted (render st) = true
  /\ option_map uText (speaking st) = Some "Step 1: Boil water"
  /\ length (spoken st) = S (length (spoken muted)).
Proof. repeat split; reflexivity. Qed.

End VoiceGuidanceLanguageAndMute.

(** ** The recipe card *)
Section RecipeCardFacts.

Lemma append_inv_head (p a b : string) : p ++ a = p ++ b -> a = b.
Proof.
  induction p as [|c p IH]; simpl; intros H; [exact H|].
  inversion H. now apply IH.
Qed.

(** C2, as stated, fails on the card without preloading: for one recipe,
    two failures with different random draws give two different sources. *)
Lemma C2_backup_url_varies_with_random :
  RecipeCard0.imageUrl
    (RecipeCard0.handleImageError "Tomato Soup" "0.25" RecipeCard0.initial)
  <> RecipeCard0.imageUrl
       (RecipeCard0.handleImageError "Tomato Soup" "0.75" RecipeCard0.initial).
Proof. discriminate. Qed.

(** C2, amended. In the card with preloading every failure (the error
    callback of the element, the error handler of a pending preload) stores
    a fixed URL.  In the card without preloading the error callback stores a
    URL made of the recipe name and the random draw: it is the same in every
    state, and different draws give different URLs. *)
Theorem C2_error_callback_urls :
  (forall st,
      RecipeCard1.imageUrl (RecipeCard1.handle RecipeCard1.ElementError st)
      = RecipeCard1.imageErrorUrl)
  /\ (forall st n,
        (n < length (RecipeCard1.preloads st))%nat ->
        RecipeCard1.imageUrl (RecipeCard1.handle (RecipeCard1.ImageFailed n) st)
        = RecipeCard1.preloadErrorUrl)
  /\ (forall recipeName random st st',
        RecipeCard0.imageUrl (RecipeCard0.handleImageError recipeName random st)
        = RecipeCard0.imageUrl (RecipeCard0.handleImageError recipeName random st'))
  /\ (forall recipeName random random' st,
        random <> random' ->
        RecipeCard0.imageUrl (RecipeCard0.handleImageError recipeName random st)
        <> RecipeCard0.imageUrl (RecipeCard0.handleImageError recipeName random' st)).
Proof.
  split; [reflexivity|]. split; [|split; [reflexivity|]].
  - intros st n Hn. simpl.
    destruct (nth_error (RecipeCard1.preloads st) n) eqn:E; [reflexivity|].
    apply nth_error_None in E. lia.
  - intros recipeName random random' st Hne H. apply Hne. simpl in H.
    unfold RecipeCard0.getBackupImageUrl in H.
    now repeat apply append_inv_head in H.
Qed.

Lemma C2_error_callback_urls_witness :
  let st := RecipeCard1.mount "Tomato Soup" 1700000000000 in
  (0 < length (RecipeCard1.preloads st))%nat
  /\ RecipeCard1.imageUrl (RecipeCard1.handle (RecipeCard1.ImageFailed 0) st)
     = RecipeCard1.preloadErrorUrl
  /\ "0.25" <> "0.75"
  /\ RecipeCard0.imageUrl
       (RecipeCard0.handleImageError "Tomato Soup" "0.25" RecipeCard0.initial)
     <> RecipeCard0.imageUrl
          (RecipeCard0.handleImageError "Tomato Soup" "0.75" RecipeCard0.initial).
Proof.
  intros st.
  destruct C2_error_callback_urls as [_ [Hfail [_ Hvary]]].
  assert (Hn : (0 < length (RecipeCard1.preloads st))%nat) by (simpl; lia).
  assert (Hne : "0.25" <> "0.75") by discriminate.
  split; [exact Hn|]. split; [exact (Hfail st 0%nat Hn)|].
  split; [exact Hne|].
  exact (Hvary "Tomato Soup" "0.25" "0.75" RecipeCard0.initial Hne).
Defined.

Import RecipeCard1.

(** The first load of a card: the effect closes over the initial
    [imageLoading], which is [true]. *)
Lemma mount_arms_timeout (recipeName : string) (now : Z) :
  JS.truthy recipeName = true ->
  timers (mount recipeName now) = [mkTimer 1 5000 true recipeName]
  /\ imageLoading (mount recipeName now) = true
  /\ imageUrl (mount recipeName now) = loadingPlaceholder.
Proof. intros H. unfold mount, loadEffect. simpl name. rewrite H. auto. Qed.

Lemma mount_timeout_falls_back (recipeName : string) (now : Z) :
  JS.truthy recipeName = true ->
  let st := handle (TimeoutFired 1) (mount recipeName now) in
  imageUrl st = getBackupImageUrl recipeName /\ imageLoading st = false
  /\ timers st = [].
Proof. intros H. unfold mount, loadEffect. simpl name. rewrite H. simpl. auto. Qed.

(** A preload that loads or fails clears its own timeout. *)
Lemma preload_event_clears_timeout (img : Preload) (st : State) (t : Timer) :
  (In t (timers (onload img st)) -> timerId t <> timeoutId img)
  /\ (In t (timers (onerror img st)) -> timerId t <> timeoutId img).
Proof.
  split; simpl; intros H; apply filter_In in H as [_ H];
    apply negb_true_iff, Nat.eqb_neq in H; exact H.
Qed.

(** C6 on the code. A card shows "Tomato Soup", whose image loads; the card
    is then given "Beef Stew".  The effect runs in a render whose
    [imageLoading] is [false], and that is what the new timeout closes over:
    when it fires with the image neither loaded nor failed, the source stays
    the loading placeholder and the loading flag stays set. *)
Theorem C6_timeout_after_name_change_does_nothing :
  let reloaded :=
    run [ImageLoaded 0; Rerendered "Beef Stew" 1700000009000]
        (mount "Tomato Soup" 1700000000000) in
  let st := handle (TimeoutFired 2) reloaded in
  timers reloaded = [mkTimer 2 5000 false "Beef Stew"]
  /\ imageLoading reloaded = true
  /\ length (preloads reloaded) = 1%nat
  /\ imageUrl st = loadingPlaceholder
  /\ imageUrl st <> getBackupImageUrl "Beef Stew"
  /\ imageLoading st = true.
Proof. repeat split; try reflexivity. discriminate. Qed.

End RecipeCardFacts.

(** ** The voice-guidance panel: what it speaks, and when *)
Section VoiceGuidanceSpeech.

Import VoiceGuidance.

Variable instructions : list string.

Lemma truthy_nonempty (s : string) : JS.truthy s = true <-> s <> "".
Proof.
  unfold JS.truthy. destruct (String.eqb_spec s ""); simpl; split; intros H;
    congruence.
Qed.

(** [speakCurrentStep] either returns at its guard or hands the utterance of
    its render to the synthesiser. *)
Lemma speakCurrentStep_cases (env : Render) (st : State) :
  speakCurrentStep instructions env st = st
  \/ exists instruction,
       instructionAt instructions (currentStep env) = Some instruction
       /\ instruction <> "" /\ isMuted env = false /\ synthReady st = true
       /\ speakCurrentStep instructions env st
          = speak (utteranceFor env instruction)
                  (setUtteranceRef (Some (utteranceFor env instruction)) (cancel st)).
Proof.
  unfold speakCurrentStep.
  destruct (instructionAt instructions (currentStep env)) as [i|]; [|now left].
  destruct (synthReady st) eqn:Hs; simpl; [|now left].
  destruct (isMuted env) eqn:Hm; simpl; [now left|].
  destruct (JS.truthy i) eqn:Ht; simpl; [|now left].
  right. exists i. apply truthy_nonempty in Ht. auto.
Qed.

Lemma speakCurrentStep_speaks (env : Render) (st : State) (instruction : string) :
  instructionAt instructions (currentStep env) = Some instruction ->
  instruction <> "" -> isMuted env = false -> synthReady st = true ->
  speakCurrentStep instructions env st
  = speak (utteranceFor env instruction)
          (setUtteranceRef (Some (utteranceFor env instruction)) (cancel st)).
Proof.
  intros Hi Hne Hm Hs. unfold speakCurrentStep. rewrite Hi, Hm, Hs.
  apply truthy_nonempty in Hne. now rewrite Hne.
Qed.

Lemma quiet_refl (st : State) : quiet st st.
Proof. unfold quiet. auto. Qed.

Lemma quiet_trans (a b c : State) : quiet a b -> quiet b c -> quiet a c.
Proof.
  unfold quiet. intros [H1 [H2 [H3 H4]]] [K1 [K2 [K3 K4]]].
  repeat split; try congruence.
  destruct K4 as [K4|K4]; [rewrite K4; exact H4|now right].
Qed.

Local Ltac quietly :=
  unfold quiet; simpl; repeat split; solve [auto].

Lemma handle_quiet_or_respeak (e : Event) (st : State) :
  quiet st (handle instructions e st)
  \/ exists n ms env,
       e = Fire n /\ nth_error (timers st) n = Some (mkTimer ms (Respeak env))
       /\ handle instructions e st
          = speakCurrentStep instructions env
              (withTimers (removeNth n (timers st)) st).
Proof.
  destruct e as [voices| | | | | | |langCode| |n]; simpl.
  - left. destruct (synthReady st) eqn:E; [|apply quiet_refl].
    unfold quiet; simpl; auto.
  - left. unfold togglePlayPause.
    destruct (isPlaying (render st)), (isMuted (render st)); quietly.
  - left. unfold toggleMute.
    destruct (isPlaying (render st)), (isMuted (render st)); quietly.
  - left. unfold nextStep.
    destruct (currentStep (render st) <? lastIndex instructions); quietly.
  - left. unfold prevStep. destruct (currentStep (render st) >? 0); quietly.
  - left. quietly.
  - left. quietly.
  - left. unfold changeLanguage. destruct (isPlaying (render st)); [|quietly].
    cbn [synthReady toast setShowLanguageSelector setSelectedLanguage withRender].
    destruct (synthReady st) eqn:E; unfold quiet; simpl; auto.
  - left. destruct (speaking st) as [u|] eqn:E; [|apply quiet_refl].
    unfold onend.
    destruct ((currentStep (uEnv u) <? lastIndex instructions) && isPlaying (uEnv u))%bool;
      [quietly|].
    destruct ((currentStep (uEnv u) =? lastIndex instructions) && isPlaying (uEnv u))%bool;
      quietly.
  - destruct (nth_error (timers st) n) as [[ms k]|] eqn:Hn;
      [|left; apply quiet_refl].
    destruct k as [| |env]; simpl; [left; quietly|left; quietly|].
    right. exists n, ms, env. auto.
Qed.

Lemma commit_quiet_or_speaks (before : Render) (st : State) :
  quiet st (commit instructions before st)
  \/ (isPlaying (render st) = true /\ isMuted (render st) = false
      /\ commit instructions before st
         = speakCurrentStep instructions (render st) st).
Proof.
  unfold commit, playbackEffect.
  destruct (depsChanged before (render st)); [|left; apply quiet_refl].
  destruct (isPlaying (render st)), (isMuted (render st)); simpl;
    try (right; now auto);
    left; (destruct (utteranceRef st); [destruct (synthReady st) eqn:E|]);
    unfold quiet; simpl; auto.
Qed.

(** A property of states that the mounted panel has and every event keeps
    holds after every sequence of events. *)
Lemma run_invariant (P : State -> Prop) (es : list Event) (st : State) :
  P st -> (forall e s, P s -> P (dispatch instructions e s)) ->
  P (run instructions es st).
Proof.
  intros H0 Hstep. unfold run. revert st H0.
  induction es as [|e es IH]; intros st H0; simpl; [exact H0|].
  apply IH, Hstep, H0.
Qed.

Lemma synthCoherent_quiet (st st' : State) :
  quiet st st' -> synthCoherent st -> synthCoherent st'.
Proof.
  intros [H1 [H2 [H3 H4]]] Hc u Hu. rewrite H1, H2, H3.
  destruct H4 as [H4|H4]; [|congruence].
  apply Hc. congruence.
Qed.

Lemma synthCoherent_speak (env : Render) (st : State) :
  synthCoherent st -> synthCoherent (speakCurrentStep instructions env st).
Proof.
  intros Hc. destruct (speakCurrentStep_cases env st) as [->|[i [_ [_ [_ [Hs ->]]]]]];
    [exact Hc|].
  intros u Hu. simpl in *. inversion Hu; subst. eauto.
Qed.

Lemma synthCoherent_dispatch (e : Event) (st : State) :
  synthCoherent st -> synthCoherent (dispatch instructions e st).
Proof.
  intros Hc. unfold dispatch.
  assert (Hh : synthCoherent (handle instructions e st)).
  { destruct (handle_quiet_or_respeak e st) as [Hq|[n [ms [env [_ [_ ->]]]]]].
    - eapply synthCoherent_quiet; eauto.
    - apply synthCoherent_speak. eapply synthCoherent_quiet; [|exact Hc].
      unfold quiet; simpl; auto. }
  destruct (commit_quiet_or_speaks (render st) (handle instructions e st))
    as [Hq|[_ [_ ->]]].
  - eapply synthCoherent_quiet; eauto.
  - now apply synthCoherent_speak.
Qed.

Lemma run_synthCoherent (es : list Event) (synthPresent : bool)
    (voices : list Voice) :
  synthCoherent (run instructions es (mount synthPresent voices)).
Proof.
  apply run_invariant; [|intros e s; apply synthCoherent_dispatch].
  intros u Hu. discriminate.
Qed.

End VoiceGuidanceSpeech.

Section VoiceGuidanceSpoken.

Import VoiceGuidance.

Variable instructions : list string.

Lemma readsInstruction_speak (env : Render) (st : State) :
  isPlaying env = true ->
  (forall u, In u (spoken st) -> readsInstruction instructions u) ->
  forall u, In u (spoken (speakCurrentStep instructions env st)) ->
            readsInstruction instructions u.
Proof.
  intros Hp Hall u.
  destruct (speakCurrentStep_cases instructions env st)
    as [->|[i [Hi [Hne [Hm [_ ->]]]]]]; [apply Hall|].
  simpl. intros Hin. apply in_app_or in Hin as [Hin|[<-|[]]]; [now apply Hall|].
  unfold readsInstruction. simpl. eauto 6.
Qed.

(** X1. Whatever the user does, every utterance the panel hands to the
    synthesiser reads a non-empty instruction of the list, as "Step k: ..."
    with k one more than the index of the render that created it, in that
    render's language and with the voice chosen for it, and that render was
    playing and not muted. *)
Theorem spoken_utterances_read_instructions (es : list Event)
    (synthPresent : bool) (voices : list Voice) (u : Utterance) :
  In u (spoken (run instructions es (mount synthPresent voices))) ->
  readsInstruction instructions u.
Proof.
  revert u.
  enough (H : closuresPlaying (run instructions es (mount synthPresent voices))
              /\ forall u, In u (spoken (run instructions es (mount synthPresent voices)))
                           -> readsInstruction instructions u) by apply H.
  apply (run_invariant instructions
           (fun st => closuresPlaying st
                      /\ forall u, In u (spoken st) -> readsInstruction instructions u)).
  - split; [split; simpl; [discriminate|intros t env []]|intros u []].
  - intros e s [Hc Hall]. split.
    + apply closuresPlaying_commit, closuresPlaying_handle, Hc.
    + assert (Hh : forall u, In u (spoken (handle instructions e s)) ->
                             readsInstruction instructions u).
      { destruct (handle_quiet_or_respeak instructions e s)
          as [[Hq _]|[n [ms [env [_ [Hn ->]]]]]].
        - now rewrite Hq.
        - apply readsInstruction_speak; [|exact Hall].
          destruct Hc as [_ Htm]. apply (Htm (mkTimer ms (Respeak env)));
            [eapply nth_error_In, Hn|reflexivity]. }
      unfold dispatch.
      destruct (commit_quiet_or_speaks instructions (render s)
                  (handle instructions e s)) as [[Hq _]|[Hp [_ ->]]].
      * now rewrite Hq.
      * now apply readsInstruction_speak.
Qed.

Lemma speakCurrentStep_no_synth (env : Render) (st : State) :
  synthReady st = false -> speakCurrentStep instructions env st = st.
Proof.
  intros Hs. destruct (speakCurrentStep_cases instructions env st)
    as [H|[i [_ [_ [_ [Hs' _]]]]]]; [exact H|congruence].
Qed.

(** X2. In a browser without speech synthesis the panel never hands anything
    to a synthesiser, whatever the user does. *)
Theorem no_synthesiser_never_speaks (es : list Event) (voices : list Voice) :
  let st := run instructions es (mount false voices) in
  spoken st = [] /\ speaking st = None /\ utteranceRef st = None.
Proof.
  enough (H : synthReady (run instructions es (mount false voices)) = false
              /\ spoken (run instructions es (mount false voices)) = []
              /\ speaking (run instructions es (mount false voices)) = None
              /\ utteranceRef (run instructions es (mount false voices)) = None)
    by apply H.
  apply (run_invariant instructions
           (fun st => synthReady st = false /\ spoken st = []
                      /\ speaking st = None /\ utteranceRef st = None)).
  - simpl. auto.
  - assert (Hquiet : forall a b, quiet a b ->
              (synthReady a = false /\ spoken a = [] /\ speaking a = None
               /\ utteranceRef a = None) ->
              synthReady b = false /\ spoken b = [] /\ speaking b = None
              /\ utteranceRef b = None).
    { intros a b [H1 [H2 [H3 H4]]] [K1 [K2 [K3 K4]]].
      repeat split; try congruence. destruct H4; congruence. }
    intros e s Hs. unfold dispatch.
    assert (Hh : synthReady (handle instructions e s) = false
                 /\ spoken (handle instructions e s) = []
                 /\ speaking (handle instructions e s) = None
                 /\ utteranceRef (handle instructions e s) = None).
    { destruct (handle_quiet_or_respeak instructions e s)
        as [Hq|[n [ms [env [_ [_ ->]]]]]]; [eapply Hquiet; eauto|].
      rewrite speakCurrentStep_no_synth; [|apply Hs].
      simpl. exact Hs. }
    destruct (commit_quiet_or_speaks instructions (render s)
                (handle instructions e s)) as [Hq|[_ [_ ->]]];
      [eapply Hquiet; eauto|].
    rewrite speakCurrentStep_no_synth; [exact Hh|apply Hh].
Qed.

(** With a coherent synthesiser, a commit whose effect runs for a render
    that is paused or muted leaves nothing being spoken. *)
Lemma commit_silences (before : Render) (st : State) :
  synthCoherent st -> depsChanged before (render st) = true ->
  (isPlaying (render st) && negb (isMuted (render st)))%bool = false ->
  speaking (commit instructions before st) = None
  /\ spoken (commit instructions before st) = spoken st.
Proof.
  intros Hc Hd Hoff. unfold commit, playbackEffect. rewrite Hd, Hoff.
  destruct (utteranceRef st) as [r|] eqn:Hr.
  - destruct (synthReady st) eqn:Hs; [now split|]. split; [|reflexivity].
    destruct (speaking st) as [u|] eqn:Hu; [|reflexivity].
    destruct (Hc u Hu) as [_ [Hs' _]]. congruence.
  - split; [|reflexivity].
    destruct (speaking st) as [u|] eqn:Hu; [|reflexivity].
    destruct (Hc u Hu) as [Hr' _]. congruence.
Qed.

(** X3. In every state the panel can reach, pressing pause while it plays,
    and pressing mute while it is not muted, stop playback and leave the
    synthesiser silent, without handing it anything new. *)
Theorem pause_and_mute_silence (es : list Event) (synthPresent : bool)
    (voices : list Voice) :
  let st := run instructions es (mount synthPresent voices) in
  (isPlaying (render st) = true ->
     let st' := dispatch instructions TogglePlayPause st in
     isPlaying (render st') = false /\ speaking st' = None
     /\ spoken st' = spoken st)
  /\ (isMuted (render st) = false ->
        let st' := dispatch instructions ToggleMute st in
        isMuted (render st') = true /\ isPlaying (render st') = false
        /\ speaking st' = None /\ spoken st' = spoken st).
Proof.
  intros st. pose proof (run_synthCoherent instructions es synthPresent voices) as Hc.
  fold st in Hc. split.
  - intros Hp st'. subst st'.
    assert (E : handle instructions TogglePlayPause st = setIsPlaying false st).
    { simpl. unfold togglePlayPause. now rewrite Hp. }
    unfold dispatch. rewrite E. split; [now rewrite render_commit|].
    change (spoken st) with (spoken (setIsPlaying false st)).
    apply commit_silences.
    + eapply synthCoherent_quiet; [|exact Hc]. unfold quiet; simpl; auto.
    + unfold depsChanged. simpl. now rewrite Hp.
    + reflexivity.
  - intros Hm st'. subst st'.
    assert (Hr : isMuted (render (handle instructions ToggleMute st)) = true
                 /\ isPlaying (render (handle instructions ToggleMute st)) = false).
    { simpl. unfold toggleMute. rewrite Hm.
      destruct (isPlaying (render st)) eqn:Hp; simpl; auto. }
    destruct Hr as [Hr1 Hr2]. unfold dispatch.
    rewrite render_commit. split; [exact Hr1|]. split; [exact Hr2|].
    assert (Hs : spoken (handle instructions ToggleMute st) = spoken st).
    { simpl. unfold toggleMute.
      destruct (negb (isMuted (render st)) && isPlaying (render st))%bool;
        reflexivity. }
    rewrite <- Hs. apply commit_silences.
    + destruct (handle_quiet_or_respeak instructions ToggleMute st)
        as [Hq|[n [ms [env [Hcontra _]]]]]; [|discriminate].
      eapply synthCoherent_quiet; eauto.
    + unfold depsChanged. rewrite Hr1, Hm. simpl.
      now rewrite andb_false_r.
    + now rewrite Hr2.
Qed.

End VoiceGuidanceSpoken.

Section VoiceGuidanceEmptyList.

Import VoiceGuidance.

Lemma speakCurrentStep_empty (env : Render) (st : State) :
  speakCurrentStep [] env st = st.
Proof.
  unfold speakCurrentStep, instructionAt.
  destruct (currentStep env <? 0); [reflexivity|].
  now destruct (Z.to_nat (currentStep env)).
Qed.

Local Ltac noAdvance Ht :=
  intros t Hin; simpl in Hin;
  try (apply in_app_or in Hin as [Hin|[<-|[]]]);
  solve [apply Ht; exact Hin | simpl; discriminate].

(** X4. For a recipe without instructions the panel never speaks and its
    step index never leaves 0, whatever the user does. *)
Theorem empty_list_never_speaks_or_moves (es : list Event)
    (synthPresent : bool) (voices : list Voice) :
  let st := run [] es (mount synthPresent voices) in
  spoken st = [] /\ speaking st = None /\ currentStep (render st) = 0.
Proof.
  enough (H : (spoken (run [] es (mount synthPresent voices)) = []
               /\ speaking (run [] es (mount synthPresent voices)) = None
               /\ currentStep (render (run [] es (mount synthPresent voices))) = 0)
              /\ forall t, In t (timers (run [] es (mount synthPresent voices)))
                           -> task t <> Advance) by apply H.
  apply (run_invariant []
           (fun st => (spoken st = [] /\ speaking st = None
                       /\ currentStep (render st) = 0)
                      /\ forall t, In t (timers st) -> task t <> Advance)).
  - simpl. split; [auto|intros t []].
  - intros e s [[Hsp [Hsk Hcur]] Ht].
    assert (Hh : (spoken (handle [] e s) = [] /\ speaking (handle [] e s) = None
                  /\ currentStep (render (handle [] e s)) = 0)
                 /\ forall t, In t (timers (handle [] e s)) -> task t <> Advance).
    { destruct e as [vs| | | | | | |langCode| |n]; simpl.
      - destruct (synthReady s); simpl; auto.
      - unfold togglePlayPause.
        destruct (isPlaying (render s)), (isMuted (render s)); simpl;
          (split; [auto|noAdvance Ht]).
      - unfold toggleMute.
        destruct (isPlaying (render s)), (isMuted (render s)); simpl;
          (split; [auto|noAdvance Ht]).
      - unfold nextStep. rewrite Hcur. simpl. auto.
      - unfold prevStep. rewrite Hcur. simpl. auto.
      - split; [auto|noAdvance Ht].
      - split; [auto|noAdvance Ht].
      - unfold changeLanguage. destruct (isPlaying (render s)).
        + cbn [synthReady toast setShowLanguageSelector setSelectedLanguage withRender].
          destruct (synthReady s); simpl; (split; [auto|noAdvance Ht]).
        + simpl. split; [auto|noAdvance Ht].
      - rewrite Hsk. auto.
      - destruct (nth_error (timers s) n) as [[ms k]|] eqn:Hn; [|auto].
        assert (Hrest : forall t, In t (removeNth n (timers s)) -> task t <> Advance)
          by (intros t Hin; eapply Ht, In_removeNth, Hin).
        destruct k as [| |env]; simpl.
        + exfalso. apply (Ht (mkTimer ms Advance)); [eapply nth_error_In, Hn|reflexivity].
        + auto.
        + rewrite speakCurrentStep_empty. simpl. auto. }
    unfold dispatch, commit, playbackEffect.
    destruct (depsChanged (render s) (render (handle [] e s))); [|exact Hh].
    destruct (isPlaying (render (handle [] e s))
              && negb (isMuted (render (handle [] e s))))%bool.
    + now rewrite speakCurrentStep_empty.
    + destruct Hh as [[H1 [H2 H3]] H4].
      destruct (utteranceRef (handle [] e s));
        [destruct (synthReady (handle [] e s))|]; simpl; auto.
Qed.

End VoiceGuidanceEmptyList.

Section VoiceGuidanceControls.

Import VoiceGuidance.

Variable instructions : list string.

Lemma depsChanged_same (r : Render) : depsChanged r r = false.
Proof.
  unfold depsChanged.
  now rewrite !Bool.eqb_reflx, Z.eqb_refl, String.eqb_refl.
Qed.

Lemma dispatch_unhandled (e : Event) (st : State) :
  handle instructions e st = st -> dispatch instructions e st = st.
Proof.
  intros H. unfold dispatch, commit. rewrite H. now rewrite depsChanged_same.
Qed.

Lemma render_next (st : State) :
  currentStep (render st) < lastIndex instructions ->
  render (dispatch instructions NextStep st)
  = render (setCurrentStep (fun prev => prev + 1) st).
Proof.
  intros H. rewrite render_dispatch. simpl. unfold nextStep.
  destruct (Z.ltb_spec (currentStep (render st)) (lastIndex instructions));
    [reflexivity|lia].
Qed.

Lemma render_prev (st : State) :
  0 < currentStep (render st) ->
  render (dispatch instructions PrevStep st)
  = render (setCurrentStep (fun prev => prev - 1) st).
Proof.
  intros H. rewrite render_dispatch. simpl. unfold prevStep.
  rewrite Z.gtb_ltb.
  destruct (Z.ltb_spec 0 (currentStep (render st))); [reflexivity|lia].
Qed.

(** X5. The navigation buttons at the ends and their round trip: "next" on or
    past the last step and "previous" on or before the first change nothing
    at all; below the last step "next" then "previous" brings the render
    back, and above the first so does "previous" then "next". *)
Theorem navigation_round_trip (st : State) :
  (lastIndex instructions <= currentStep (render st) ->
     dispatch instructions NextStep st = st)
  /\ (currentStep (render st) <= 0 -> dispatch instructions PrevStep st = st)
  /\ (0 <= currentStep (render st) < lastIndex instructions ->
        render (dispatch instructions PrevStep (dispatch instructions NextStep st))
        = render st)
  /\ (0 < currentStep (render st) <= lastIndex instructions ->
        render (dispatch instructions NextStep (dispatch instructions PrevStep st))
        = render st).
Proof.
  split; [|split; [|split]].
  - intros H. apply dispatch_unhandled. simpl. unfold nextStep.
    destruct (Z.ltb_spec (currentStep (render st)) (lastIndex instructions));
      [lia|reflexivity].
  - intros H. apply dispatch_unhandled. simpl. unfold prevStep.
    rewrite Z.gtb_ltb.
    destruct (Z.ltb_spec 0 (currentStep (render st))); [lia|reflexivity].
  - intros H.
    assert (E : render (dispatch instructions NextStep st)
                = render (setCurrentStep (fun prev => prev + 1) st))
      by (apply render_next; lia).
    rewrite render_prev by (rewrite E; simpl; lia).
    cbn [render setCurrentStep withRender]. rewrite E. simpl.
    destruct (render st); simpl. f_equal. lia.
  - intros H.
    assert (E : render (dispatch instructions PrevStep st)
                = render (setCurrentStep (fun prev => prev - 1) st))
      by (apply render_prev; lia).
    rewrite render_next by (rewrite E; simpl; lia).
    cbn [render setCurrentStep withRender]. rewrite E. simpl.
    destruct (render st); simpl. f_equal. lia.
Qed.

(** X6. While the index addresses an instruction, a navigation button is
    drawn disabled exactly when pressing it would leave the index alone. *)
Theorem disabled_buttons_match_handlers (st : State) :
  inBounds instructions (render st) ->
  (nextDisabled instructions (render st) = true
   <-> currentStep (render (dispatch instructions NextStep st))
       = currentStep (render st))
  /\ (prevDisabled (render st) = true
      <-> currentStep (render (dispatch instructions PrevStep st))
          = currentStep (render st)).
Proof.
  unfold inBounds, nextDisabled, prevDisabled. intros Hb.
  rewrite !render_dispatch. simpl. unfold nextStep, prevStep.
  rewrite Z.gtb_ltb, !Z.eqb_eq.
  destruct (Z.ltb_spec (currentStep (render st)) (lastIndex instructions));
    destruct (Z.ltb_spec 0 (currentStep (render st))); simpl; lia.
Qed.

(** X7. [chooseVoice] picks a voice only from the loaded voices whose
    language tag contains, in lower case, the first two characters of the
    selected language; it prefers a Google, Female or Samantha voice
    whenever a matching voice is one; it returns no voice exactly when no
    loaded voice matches. *)
Theorem chooseVoice_sound (env : Render) :
  match chooseVoice env with
  | Some v =>
      In v (availableVoices env)
      /\ matchesLanguage (selectedLanguage env) v = true
      /\ ((exists w, In w (availableVoices env)
                     /\ matchesLanguage (selectedLanguage env) w = true
                     /\ isPreferred w = true)
          -> isPreferred v = true)
  | None =>
      forall w, In w (availableVoices env) ->
                matchesLanguage (selectedLanguage env) w = false
  end.
Proof.
  unfold chooseVoice.
  destruct (filter (matchesLanguage (selectedLanguage env)) (availableVoices env))
    as [|first rest] eqn:Hf.
  - intros w Hin.
    destruct (matchesLanguage (selectedLanguage env) w) eqn:Hm; [|reflexivity].
    assert (Hw : In w []) by (rewrite <- Hf; apply filter_In; auto).
    destruct Hw.
  - assert (Hall : forall v, In v (first :: rest) ->
               In v (availableVoices env)
               /\ matchesLanguage (selectedLanguage env) v = true)
      by (intros v Hv; rewrite <- Hf in Hv; now apply filter_In in Hv).
    destruct (find isPreferred (first :: rest)) as [p|] eqn:Hp.
    + apply find_some in Hp as [Hin Hpref].
      destruct (Hall p Hin). auto.
    + destruct (Hall first (or_introl eq_refl)) as [H1 H2].
      split; [exact H1|]. split; [exact H2|].
      intros [w [Hw [Hm Hpref]]].
      assert (Hin : In w (first :: rest))
        by (rewrite <- Hf; apply filter_In; auto).
      pose proof (find_none _ _ Hp w Hin). congruence.
Qed.

Lemma toasts_commit (before : Render) (st : State) :
  toasts (commit instructions before st) = toasts st.
Proof.
  unfold commit, playbackEffect.
  destruct (depsChanged before (render st)); [|reflexivity].
  destruct (isPlaying (render st) && negb (isMuted (render st)))%bool.
  - unfold speakCurrentStep.
    destruct (instructionAt instructions (currentStep (render st))); [|reflexivity].
    destruct (negb (synthReady st) || isMuted (render st) || negb (JS.truthy s))%bool;
      reflexivity.
  - destruct (utteranceRef st); [destruct (synthReady st)|]; reflexivity.
Qed.

Lemma find_code_none (langCode : string) (options : list (string * string)) :
  (forall name, ~ In (langCode, name) options) ->
  find (fun lang => String.eqb (fst lang) langCode) options = None.
Proof.
  induction options as [|[c n] options IH]; simpl; intros H; [reflexivity|].
  destruct (String.eqb_spec c langCode) as [->|Hne].
  - exfalso. apply (H n). now left.
  - apply IH. intros name Hin. apply (H name). now right.
Qed.

(** X8. Choosing a language shows one toast that names it: the display name
    for each of the fifteen offered codes, and the code itself for any other
    code. *)
Theorem changeLanguage_toast_names_language (langCode : string) (st : State) :
  toasts (dispatch instructions (ChangeLanguage langCode) st)
  = (toasts st
     ++ [mkToast "Language Changed"
                 ("Voice guidance language set to " ++ languageName langCode)
                 3000])%list
  /\ (forall name, In (langCode, name) languageOptions ->
                   languageName langCode = name)
  /\ ((forall name, ~ In (langCode, name) languageOptions) ->
      languageName langCode = langCode).
Proof.
  split; [|split].
  - unfold dispatch. rewrite toasts_commit. simpl. unfold changeLanguage.
    destruct (isPlaying (render st)); [|reflexivity].
    cbn [synthReady toast setShowLanguageSelector setSelectedLanguage withRender].
    destruct (synthReady st); reflexivity.
  - intros name Hin. unfold languageOptions in Hin. simpl in Hin.
    repeat (destruct Hin as [Hin|Hin];
            [inversion Hin; subst; reflexivity|]).
    destruct Hin.
  - intros Hnone. unfold languageName.
    now rewrite (find_code_none langCode languageOptions Hnone).
Qed.

End VoiceGuidanceControls.

Section VoiceGuidancePlayback.

Import VoiceGuidance.

Variable instructions : list string.

(** A commit whose effect runs for a playing, unmuted render with a
    synthesiser and a non-empty current instruction speaks it. *)
Lemma commit_speaks (before : Render) (st : State) (instruction : string) :
  depsChanged before (render st) = true ->
  isPlaying (render st) = true -> isMuted (render st) = false ->
  synthReady st = true ->
  instructionAt instructions (currentStep (render st)) = Some instruction ->
  instruction <> "" ->
  commit instructions before st
  = speak (utteranceFor (render st) instruction)
          (setUtteranceRef (Some (utteranceFor (render st) instruction)) (cancel st)).
Proof.
  intros Hd Hp Hm Hs Hi Hne. unfold commit, playbackEffect.
  rewrite Hd, Hp, Hm. simpl. now apply speakCurrentStep_speaks.
Qed.

Lemma play_now (st : State) (instruction : string) :
  synthReady st = true ->
  instructionAt instructions (currentStep (render st)) = Some instruction ->
  instruction <> "" ->
  isPlaying (render st) = false -> isMuted (render st) = false ->
  dispatch instructions TogglePlayPause st
  = speak (utteranceFor (render (setIsPlaying true st)) instruction)
      (setUtteranceRef
         (Some (utteranceFor (render (setIsPlaying true st)) instruction))
         (cancel (toast "Voice Guidance Started"
                    "I'll guide you through each step of the recipe." 3000
                    (setIsPlaying true st)))).
Proof.
  intros Hs Hi Hne Hp Hm.
  assert (E : handle instructions TogglePlayPause st
              = toast "Voice Guidance Started"
                  "I'll guide you through each step of the recipe." 3000
                  (setIsPlaying true st)).
  { simpl. unfold togglePlayPause. now rewrite Hp, Hm. }
  unfold dispatch. rewrite E.
  rewrite (commit_speaks _ _ instruction); simpl; auto.
  unfold depsChanged. simpl. now rewrite Hp.
Qed.

(** X9. Pressing play on a paused panel that has a synthesiser and a
    non-empty current instruction: if the panel is not muted it starts
    playing and speaks that instruction at once; if it is muted it is
    unmuted at once, and playback and speech start when the 100 ms timer
    runs. *)
Theorem play_speaks_current_step (st : State) (instruction : string) :
  synthReady st = true ->
  instructionAt instructions (currentStep (render st)) = Some instruction ->
  instruction <> "" ->
  isPlaying (render st) = false ->
  (isMuted (render st) = false ->
     let st' := dispatch instructions TogglePlayPause st in
     isPlaying (render st') = true
     /\ speaking st' = Some (utteranceFor (render st') instruction)
     /\ spoken st' = (spoken st ++ [utteranceFor (render st') instruction])%list)
  /\ (isMuted (render st) = true ->
        let st1 := dispatch instructions TogglePlayPause st in
        let st2 := dispatch instructions (Fire (length (timers st))) st1 in
        (isMuted (render st1) = false /\ isPlaying (render st1) = false
         /\ spoken st1 = spoken st
         /\ timers st1 = (timers st ++ [mkTimer 100 StartPlaying])%list)
        /\ isPlaying (render st2) = true /\ isMuted (render st2) = false
        /\ speaking st2 = Some (utteranceFor (render st2) instruction)
        /\ spoken st2 = (spoken st ++ [utteranceFor (render st2) instruction])%list).
Proof.
  intros Hs Hi Hne Hp. split.
  - intros Hm st'. subst st'.
    rewrite (play_now st instruction Hs Hi Hne Hp Hm). simpl. auto.
  - intros Hm st1 st2.
    assert (E : handle instructions TogglePlayPause st
                = toast "Voice Guidance Started"
                    "I'll guide you through each step of the recipe." 3000
                    (setTimeout StartPlaying 100 (setIsMuted false st))).
    { simpl. unfold togglePlayPause. now rewrite Hp, Hm. }
    assert (Hr1 : render st1 = render (setIsMuted false st))
      by (subst st1; rewrite render_dispatch, E; reflexivity).
    assert (Ht1 : timers st1 = (timers st ++ [mkTimer 100 StartPlaying])%list)
      by (subst st1; unfold dispatch; rewrite timers_commit, E; reflexivity).
    assert (Hq : quiet st st1).
    { subst st1. unfold dispatch. rewrite E.
      destruct (commit_quiet_or_speaks instructions (render st)
                  (toast "Voice Guidance Started"
                     "I'll guide you through each step of the recipe." 3000
                     (setTimeout StartPlaying 100 (setIsMuted false st))))
        as [Hq|[Hcontra _]].
      - eapply quiet_trans; [|exact Hq]. unfold quiet; simpl; auto.
      - simpl in Hcontra. congruence. }
    destruct Hq as [Hsp1 [_ [Hsr1 _]]].
    split.
    { rewrite Hr1. simpl. auto. }
    assert (E2 : handle instructions (Fire (length (timers st))) st1
                 = setIsPlaying true (withTimers (timers st) st1)).
    { simpl. rewrite Ht1, nth_error_last. simpl.
      now rewrite removeNth_last. }
    assert (Hr2 : render (setIsPlaying true (withTimers (timers st) st1))
                  = render (setIsPlaying true (setIsMuted false st)))
      by (cbn [render setIsPlaying withTimers withRender]; now rewrite Hr1).
    subst st2. unfold dispatch. rewrite E2.
    rewrite (commit_speaks _ _ instruction).
    + rewrite Hr2. simpl. rewrite Hsp1, Hr1. simpl. auto.
    + unfold depsChanged. rewrite Hr2, Hr1. simpl. now rewrite Hp.
    + now rewrite Hr2.
    + now rewrite Hr2.
    + simpl. congruence.
    + now rewrite Hr2.
    + exact Hne.
Qed.

Lemma instructionAt_middle (pre : list string) (i : string) (rest : list string) :
  instructionAt (pre ++ i :: rest) (Z.of_nat (length pre)) = Some i.
Proof.
  unfold instructionAt.
  destruct (Z.ltb_spec (Z.of_nat (length pre)) 0); [lia|].
  rewrite Nat2Z.id. clear.
  induction pre as [|a pre IH]; simpl; [reflexivity|exact IH].
Qed.

Lemma lastIndex_middle (pre : list string) (i : string) (rest : list string) :
  lastIndex (pre ++ i :: rest) = Z.of_nat (length pre) + Z.of_nat (length rest).
Proof. unfold lastIndex. rewrite length_app. simpl length. lia. Qed.

Lemma utterance_end_advances (st : State) (i : string) :
  isPlaying (render st) = true ->
  speaking st = Some (utteranceFor (render st) i) ->
  currentStep (render st) < lastIndex instructions ->
  dispatch instructions UtteranceEnd st
  = setTimeout Advance 1000 (setSpeaking None st).
Proof.
  intros Hp Hu Hlt.
  assert (E : handle instructions UtteranceEnd st
              = setTimeout Advance 1000 (setSpeaking None st)).
  { simpl. rewrite Hu. unfold onend. simpl uEnv. rewrite Hp.
    destruct (Z.ltb_spec (currentStep (render st)) (lastIndex instructions));
      [reflexivity|lia]. }
  unfold dispatch, commit. rewrite E.
  change (render (setTimeout Advance 1000 (setSpeaking None st))) with (render st).
  now rewrite depsChanged_same.
Qed.

(** One utterance ends below the last step and its timer runs: the panel
    is then reading the next instruction. *)
Lemma listen_step (st : State) (i i' : string) :
  isPlaying (render st) = true -> isMuted (render st) = false ->
  synthReady st = true -> timers st = [] ->
  speaking st = Some (utteranceFor (render st) i) ->
  currentStep (render st) < lastIndex instructions ->
  instructionAt instructions (currentStep (render st) + 1) = Some i' ->
  i' <> "" ->
  let st' := run instructions [UtteranceEnd; Fire 0] st in
  (isPlaying (render st') = true /\ isMuted (render st') = false
   /\ synthReady st' = true /\ timers st' = []
   /\ speaking st' = Some (utteranceFor (render st') i'))
  /\ currentStep (render st') = currentStep (render st) + 1
  /\ spoken st' = (spoken st ++ [utteranceFor (render st') i'])%list
  /\ toasts st' = toasts st.
Proof.
  intros Hp Hm Hs Ht Hu Hlt Hi Hne st'. subst st'. unfold run. simpl.
  rewrite (utterance_end_advances st i Hp Hu Hlt).
  assert (E : handle instructions (Fire 0)
                (setTimeout Advance 1000 (setSpeaking None st))
              = setCurrentStep (fun prev => prev + 1)
                  (withTimers [] (setSpeaking None st))).
  { simpl. rewrite Ht. reflexivity. }
  unfold dispatch. rewrite E.
  rewrite (commit_speaks _ _ i'); simpl; auto.
  - rewrite Hp, Hm. auto 10.
  - unfold depsChanged. simpl.
    assert (Hc : (currentStep (render st) =? currentStep (render st) + 1) = false)
      by (apply Z.eqb_neq; lia).
    now rewrite Hc, andb_false_r.
Qed.

(** The utterance of the last step ends: playback stops. *)
Lemma listen_last (st : State) (i : string) :
  isPlaying (render st) = true ->
  speaking st = Some (utteranceFor (render st) i) ->
  currentStep (render st) = lastIndex instructions ->
  let st' := dispatch instructions UtteranceEnd st in
  isPlaying (render st') = false
  /\ currentStep (render st') = lastIndex instructions
  /\ speaking st' = None /\ spoken st' = spoken st
  /\ toasts st'
     = (toasts st
        ++ [mkToast "Cooking Complete!"
                    "All cooking steps have been read. Enjoy your meal!" 5000])%list.
Proof.
  intros Hp Hu Hc st'. subst st'.
  assert (E : handle instructions UtteranceEnd st
              = toast "Cooking Complete!"
                  "All cooking steps have been read. Enjoy your meal!" 5000
                  (setIsPlaying false (setSpeaking None st))).
  { simpl. rewrite Hu. unfold onend. simpl uEnv. rewrite Hp, Hc.
    now rewrite Z.ltb_irrefl, Z.eqb_refl. }
  unfold dispatch. rewrite render_commit, toasts_commit, E. simpl.
  split; [reflexivity|]. split; [exact Hc|].
  destruct (commit_quiet_or_speaks instructions (render st)
              (toast "Cooking Complete!"
                 "All cooking steps have been read. Enjoy your meal!" 5000
                 (setIsPlaying false (setSpeaking None st))))
    as [[H1 [_ [_ H4]]]|[Hcontra _]]; [|discriminate].
  split; [|split; [exact H1|reflexivity]].
  destruct H4 as [H4|H4]; exact H4.
Qed.

Lemma listen_rest (rest : list string) :
  forall (pre : list string) (i : string) (st : State),
  instructions = (pre ++ i :: rest)%list ->
  Forall (fun x => x <> "") rest ->
  isPlaying (render st) = true -> isMuted (render st) = false ->
  synthReady st = true -> timers st = [] ->
  speaking st = Some (utteranceFor (render st) i) ->
  currentStep (render st) = Z.of_nat (length pre) ->
  let st' := run instructions (listenThrough (length rest)) st in
  map uText (spoken st')
  = (map uText (spoken st) ++ stepTextsFrom (Z.of_nat (length pre) + 1) rest)%list
  /\ isPlaying (render st') = false
  /\ currentStep (render st') = lastIndex instructions
  /\ speaking st' = None
  /\ toasts st'
     = (toasts st
        ++ [mkToast "Cooking Complete!"
                    "All cooking steps have been read. Enjoy your meal!" 5000])%list.
Proof.
  induction rest as [|i' rest IH]; intros pre i st Hins Hall Hp Hm Hs Ht Hu Hc st'.
  - subst st'. simpl listenThrough.
    assert (Hlast : currentStep (render st) = lastIndex instructions)
      by (rewrite Hins, lastIndex_middle, Hc; simpl; lia).
    destruct (listen_last st i Hp Hu Hlast) as [H1 [H2 [H3 [H4 H5]]]].
    unfold run. simpl. rewrite H4. simpl. rewrite app_nil_r. auto.
  - subst st'. inversion Hall as [|x l Hne Hall']; subst x l.
    assert (Hins' : instructions = ((pre ++ [i]) ++ i' :: rest)%list)
      by (rewrite <- app_assoc; exact Hins).
    assert (Hlt : currentStep (render st) < lastIndex instructions)
      by (rewrite Hins, lastIndex_middle, Hc; simpl length; lia).
    assert (Hi' : instructionAt instructions (currentStep (render st) + 1) = Some i').
    { rewrite Hc. rewrite Hins' at 1.
      replace (Z.of_nat (length pre) + 1) with (Z.of_nat (length (pre ++ [i])))
        by (rewrite length_app; simpl; lia).
      apply instructionAt_middle. }
    destruct (listen_step st i i' Hp Hm Hs Ht Hu Hlt Hi' Hne)
      as [[Hp1 [Hm1 [Hs1 [Ht1 Hu1]]]] [Hc1 [Hsp1 Hto1]]].
    assert (Hc1' : currentStep (render (run instructions [UtteranceEnd; Fire 0] st))
                   = Z.of_nat (length (pre ++ [i])))
      by (rewrite Hc1, Hc, length_app; simpl; lia).
    destruct (IH (pre ++ [i])%list i' _ Hins' Hall' Hp1 Hm1 Hs1 Ht1 Hu1 Hc1')
      as [K1 [K2 [K3 [K4 K5]]]].
    simpl listenThrough.
    change (run instructions (UtteranceEnd :: Fire 0 :: listenThrough (length rest)) st)
      with (run instructions (listenThrough (length rest))
              (run instructions [UtteranceEnd; Fire 0] st)).
    rewrite K1, K5, Hsp1, Hto1. repeat split; auto.
    rewrite map_app, <- app_assoc. f_equal.
    cbn [map app stepTextsFrom uText utteranceFor]. rewrite Hc1, Hc.
    do 2 f_equal. rewrite length_app. simpl. lia.
Qed.

(** X10. With a synthesiser and a recipe all of whose instructions are
    non-empty, pressing play and letting every utterance end and every
    advance timer run reads "Step 1: ...", "Step 2: ...", up to the last
    instruction, each once and in order; then playback is off, the index is
    on the last step, nothing is being spoken, and the two toasts shown are
    the start and the completion toast. *)
Theorem play_reads_every_step_in_order (voices : list Voice) :
  instructions <> [] ->
  Forall (fun x => x <> "") instructions ->
  let st := run instructions
                (TogglePlayPause :: listenThrough (length instructions - 1))
                (mount true voices) in
  map uText (spoken st) = stepTextsFrom 0 instructions
  /\ isPlaying (render st) = false
  /\ currentStep (render st) = lastIndex instructions
  /\ speaking st = None
  /\ map toastTitle (toasts st) = ["Voice Guidance Started"; "Cooking Complete!"].
Proof.
  intros Hne Hall st.
  destruct instructions as [|i rest] eqn:Hins; [contradiction|].
  inversion Hall as [|x l Hi Hrest]; subst x l.
  assert (Hat : instructionAt instructions (currentStep (render (mount true voices)))
                = Some i) by (rewrite Hins; reflexivity).
  pose proof (play_now (mount true voices) i eq_refl Hat Hi eq_refl eq_refl)
    as Hplay.
  assert (Hp : isPlaying (render (dispatch instructions TogglePlayPause
                                    (mount true voices))) = true)
    by (rewrite Hplay; reflexivity).
  assert (Hu : speaking (dispatch instructions TogglePlayPause (mount true voices))
               = Some (utteranceFor
                         (render (dispatch instructions TogglePlayPause
                                    (mount true voices))) i))
    by (rewrite Hplay; reflexivity).
  assert (Hsp : spoken (dispatch instructions TogglePlayPause (mount true voices))
                = (spoken (mount true voices)
                   ++ [utteranceFor
                         (render (dispatch instructions TogglePlayPause
                                    (mount true voices))) i])%list)
    by (rewrite Hplay; reflexivity).
  assert (Hm : isMuted (render (dispatch instructions TogglePlayPause
                                  (mount true voices))) = false)
    by (rewrite render_dispatch; reflexivity).
  assert (Hs : synthReady (dispatch instructions TogglePlayPause
                             (mount true voices)) = true).
  { destruct (run_synthCoherent instructions [TogglePlayPause] true voices _ Hu)
      as [_ [H _]]. exact H. }
  assert (Ht : timers (dispatch instructions TogglePlayPause (mount true voices)) = [])
    by (unfold dispatch; rewrite timers_commit; reflexivity).
  assert (Hto : toasts (dispatch instructions TogglePlayPause (mount true voices))
                = [mkToast "Voice Guidance Started"
                     "I'll guide you through each step of the recipe." 3000])
    by (unfold dispatch; rewrite toasts_commit; reflexivity).
  assert (Hc : currentStep (render (dispatch instructions TogglePlayPause
                                      (mount true voices))) = Z.of_nat (length (@nil string)))
    by (rewrite render_dispatch; reflexivity).
  assert (Hins0 : instructions = ([] ++ i :: rest)%list) by exact Hins.
  destruct (listen_rest rest [] i _ Hins0 Hrest Hp Hm Hs Ht Hu Hc)
    as [K1 [K2 [K3 [K4 K5]]]].
  subst st. rewrite <- Hins.
  replace (length instructions - 1)%nat with (length rest)
    by (rewrite Hins; simpl; lia).
  change (run instructions (TogglePlayPause :: listenThrough (length rest))
            (mount true voices))
    with (run instructions (listenThrough (length rest))
            (dispatch instructions TogglePlayPause (mount true voices))).
  rewrite K1, K5, Hsp, Hto. repeat split; auto.
  replace (stepTextsFrom 0 instructions)
    with (("Step " ++ JS.numToString (0 + 1) ++ ": " ++ i)
            :: stepTextsFrom (0 + 1) rest) by (now rewrite Hins).
  cbn [map app spoken mount uText utteranceFor Datatypes.length Z.of_nat].
  now rewrite Hc.
Qed.

End VoiceGuidancePlayback.

(** ** The chat widget: conversations *)
Section ChatBotConversations.

Import ChatBot.

Variable getChatbotResponse : string -> string.

Lemma fire_last (now : Z) (st : State) (ms : Z) (k : Task) (before : list Timer) :
  timers st = (before ++ [mkTimer ms k])%list ->
  handle getChatbotResponse (Fire (length before) now) st
  = runTask now k (withTimers before st).
Proof.
  intros H. simpl. rewrite H, nth_error_last, removeNth_last. reflexivity.
Qed.

(** X11. A message that is not blank is answered: after the submit and the
    run of the timer it set, the list has grown by exactly the user's
    message, with the text as typed, followed by the bot's reply to it; the
    input is empty, the typing indicator is off, and no timer is left from
    the exchange. *)
Theorem submit_then_reply (now later : Z) (st : State) :
  allSpace (message st) = false ->
  let st' := run getChatbotResponse
                 [Submit now; Fire (length (timers st)) later] st in
  messages st'
  = (messages st
     ++ [mkMessage (JS.numToString now) (message st) user now;
         mkMessage (JS.numToString (later + 100)) (botResponse (message st))
                   bot later])%list
  /\ message st' = "" /\ isTyping st' = false /\ timers st' = timers st.
Proof.
  intros Hns st'. subst st'.
  assert (Htrim : String.eqb (JS.trim (message st)) "" = false).
  { destruct (String.eqb_spec (JS.trim (message st)) "") as [E|E]; [|reflexivity].
    apply trim_empty_iff in E. congruence. }
  unfold run. cbn [fold_left].
  assert (E : handle getChatbotResponse (Submit now) st
              = setTimeout (BotReply (message st)) 1500
                  (setIsTyping true
                     (setMessage ""
                        (setMessages
                           (fun prev => (prev ++ [mkMessage (JS.numToString now)
                                                    (message st) user now])%list)
                           st))))
    by (simpl; unfold handleSendMessage; now rewrite Htrim).
  rewrite E.
  rewrite (fire_last later _ 1500 (BotReply (message st)) (timers st));
    [|reflexivity].
  simpl. rewrite <- app_assoc. auto.
Qed.



(** X13. The chat window: closing keeps the messages and the draft; the
    chat button reopens a closed chat maximised, even if it was minimised
    when it was closed; on an open chat the button only minimises and
    restores, twice in a row bringing the state back. *)
Theorem chat_window_states (st : State) :
  (messages (closeChat st) = messages st /\ message (closeChat st) = message st)
  /\ (isOpen (toggleChat (closeChat st)) = true
      /\ isMinimized (toggleChat (closeChat st)) = false
      /\ messages (toggleChat (closeChat st)) = messages st)
  /\ (isOpen st = true ->
      isOpen (toggleChat st) = true
      /\ isMinimized (toggleChat st) = negb (isMinimized st)
      /\ toggleChat (toggleChat st) = st).
Proof.
  split; [split; reflexivity|]. split; [repeat split|].
  intros Ho. unfold toggleChat. rewrite Ho. simpl. rewrite Ho. simpl.
  repeat split.
  destruct st as [o m t ms ty tm]. simpl in *. subst o.
  unfold setIsMinimized. simpl. now rewrite negb_involutive.
Qed.

(** X14. A mood is answered only on an open chat and only if it is a
    non-empty string.  Then the first timer switches the typing indicator on
    and the second appends, as a bot message, what [getChatbotResponse]
    returned for the mood when the effect ran, and switches it off. *)
Theorem mood_change_is_answered (mood : string) (t1 t2 : Z) (st : State) :
  (moodEffect getChatbotResponse None st = st
   /\ moodEffect getChatbotResponse (Some "") st = st
   /\ (isOpen st = false ->
       moodEffect getChatbotResponse (Some mood) st = st))
  /\ (mood <> "" -> isOpen st = true ->
      let typing := run getChatbotResponse
                        [MoodEffect (Some mood); Fire (length (timers st)) t1] st in
      let st' := handle getChatbotResponse (Fire (length (timers st)) t2) typing in
      (isTyping typing = true /\ messages typing = messages st)
      /\ messages st'
         = (messages st
            ++ [mkMessage (JS.numToString t2) (getChatbotResponse mood) bot t2])%list
      /\ isTyping st' = false /\ timers st' = timers st).
Proof.
  split.
  - split; [reflexivity|]. split; [reflexivity|].
    intros Hc. unfold moodEffect. now rewrite Hc, andb_false_r.
  - intros Hne Ho typing st'.
    assert (E : handle getChatbotResponse (MoodEffect (Some mood)) st
                = setTimeout (MoodTyping (getChatbotResponse mood)) 500 st).
    { simpl. unfold moodEffect. apply truthy_nonempty in Hne.
      now rewrite Hne, Ho. }
    assert (T : typing
                = setTimeout (MoodReply (getChatbotResponse mood)) 1500
                    (setIsTyping true st)).
    { subst typing. unfold run. cbn [fold_left]. rewrite E.
      rewrite (fire_last t1 _ 500 (MoodTyping (getChatbotResponse mood)) (timers st));
        [|reflexivity].
      destruct st; reflexivity. }
    subst st'. rewrite T.
    rewrite (fire_last t2 _ 1500 (MoodReply (getChatbotResponse mood)) (timers st));
      [|reflexivity].
    simpl. auto.
Qed.

End ChatBotConversations.

(** ** The recipe cards: queries, tags and image loading *)
Section RecipeCardQueries.

Import RecipeCard0.

Lemma lowered_word_is_query_char (c : ascii) :
  JS.isWord (JS.toLowerChar c) = true -> isQueryChar (JS.toLowerChar c) = true.
Proof.
  destruct c as [b0 b1 b2 b3 b4 b5 b6 b7].
  destruct b0, b1, b2, b3, b4, b5, b6, b7; vm_compute; intros H;
    solve [reflexivity | discriminate H].
Qed.

Lemma word_is_not_plus (c : ascii) :
  JS.isWord c = true -> Ascii.eqb c "+" = false.
Proof.
  intros H. destruct (Ascii.eqb_spec c "+") as [->|]; [|reflexivity].
  discriminate H.
Qed.

Lemma prefix_plusplus (c : ascii) (r : string) :
  prefix "++" (String c r) = (Ascii.eqb c "+" && startsWithPlus r)%bool.
Proof.
  cbn [prefix]. destruct (ascii_dec "+" c) as [<-|Hne].
  - rewrite Ascii.eqb_refl. cbn [andb].
    destruct r as [|d r]; cbn [prefix startsWithPlus]; [reflexivity|].
    destruct (ascii_dec "+" d) as [<-|Hne].
    + rewrite Ascii.eqb_refl. now destruct r.
    + destruct (Ascii.eqb_spec d "+"); [congruence|reflexivity].
  - destruct (Ascii.eqb_spec c "+"); [congruence|reflexivity].
Qed.

Lemma cleaned_query (s : string) :
  forall inRun,
    allChars isQueryChar
      (JS.plusForSpacesFrom inRun (JS.stripNonWord (JS.toLowerCase s))) = true
    /\ JS.includes
         (JS.plusForSpacesFrom inRun (JS.stripNonWord (JS.toLowerCase s))) "++"
       = false
    /\ (inRun = true ->
        startsWithPlus
          (JS.plusForSpacesFrom inRun (JS.stripNonWord (JS.toLowerCase s)))
        = false).
Proof.
  induction s as [|c s IH]; intros inRun; [simpl; auto|].
  cbn [JS.toLowerCase JS.stripNonWord].
  destruct (JS.isWord (JS.toLowerChar c)) eqn:Hw;
    destruct (JS.isSpace (JS.toLowerChar c)) eqn:Hs;
    cbn [orb JS.plusForSpacesFrom]; try rewrite Hs; try apply IH.
  - exfalso. revert Hw Hs. clear.
    destruct c as [b0 b1 b2 b3 b4 b5 b6 b7].
    destruct b0, b1, b2, b3, b4, b5, b6, b7; vm_compute; congruence.
  - destruct (IH false) as [H1 [H2 _]].
    cbn [allChars JS.includes startsWithPlus].
    rewrite (lowered_word_is_query_char c Hw), H1, H2, prefix_plusplus.
    rewrite (word_is_not_plus _ Hw). auto.
  - destruct (IH true) as [H1 [H2 H3]]. destruct inRun; [auto|].
    cbn [allChars JS.includes startsWithPlus].
    rewrite H1, H2, prefix_plusplus, (H3 eq_refl), andb_false_r.
    repeat split. discriminate.
Qed.

(** X15. Whatever the recipe name, the query the card puts into its image
    URLs holds only lower-case letters, digits, underscores and plus signs,
    and never two plus signs in a row. *)
Theorem searchQuery_is_clean (recipeName : string) :
  allChars isQueryChar (searchQuery recipeName) = true
  /\ JS.includes (searchQuery recipeName) "++" = false.
Proof.
  unfold searchQuery, JS.plusForSpaces.
  destruct (cleaned_query recipeName false) as [H1 [H2 _]]. auto.
Qed.

(** X16. Every tag of a recipe is either one of the at most three tags
    shown, in their order, or counted by the "+N more" badge, which is drawn
    only when it counts at least one tag. *)
Theorem tags_shown_or_counted (tags : list string) :
  exists hidden,
    tags = (shownTags tags ++ hidden)%list
    /\ (length (shownTags tags) <= 3)%nat
    /\ match moreBadge tags with
       | Some n => length hidden = n /\ (0 < n)%nat
       | None => hidden = []
       end.
Proof.
  exists (skipn 3 tags). unfold shownTags, moreBadge.
  split; [symmetry; apply firstn_skipn|].
  split; [apply firstn_le_length|].
  destruct (Nat.ltb_spec 3 (length tags)) as [H|H].
  - rewrite length_skipn. lia.
  - apply skipn_all2. exact H.
Qed.

End RecipeCardQueries.

Section RecipeCardLoading.

Import RecipeCard1.

Lemma find_cleared (tid : nat) (l : list Timer) :
  find (fun t => Nat.eqb (timerId t) tid)
       (filter (fun t => negb (Nat.eqb (timerId t) tid)) l) = None.
Proof.
  induction l as [|t l IH]; simpl; [reflexivity|].
  destruct (Nat.eqb (timerId t) tid) eqn:E; simpl; [exact IH|].
  now rewrite E.
Qed.

(** X17. Once a preloaded image has loaded, or has failed, its timeout can
    no longer change anything: the timeout event for it leaves the state as
    the load or error handler left it. *)
Theorem settled_preload_ignores_timeout (img : Preload) (st : State) :
  handle (TimeoutFired (timeoutId img)) (onload img st) = onload img st
  /\ handle (TimeoutFired (timeoutId img)) (onerror img st) = onerror img st.
Proof.
  split; simpl; now rewrite find_cleared.
Qed.

Lemma filter_all_out (tid : nat) (l : list Timer) :
  (forall t, In t l -> timerId t = tid) ->
  filter (fun t => negb (Nat.eqb (timerId t) tid)) l = [].
Proof.
  induction l as [|t l IH]; simpl; intros H; [reflexivity|].
  rewrite (H t (or_introl eq_refl)), Nat.eqb_refl. simpl.
  apply IH. intros t' Hin. apply H. now right.
Qed.

Lemma timersTidy_clear (tid : nat) (st : State) :
  timersTidy st -> timersTidy (clearTimeout tid st).
Proof.
  intros [Hid Hlen]. split; simpl.
  - intros t Hin. apply filter_In in Hin as [Hin _]. now apply Hid.
  - etransitivity; [apply filter_length_le|exact Hlen].
Qed.

Lemma timersTidy_handle (e : Event) (st : State) :
  timersTidy st -> timersTidy (handle e st).
Proof.
  intros Hst. destruct e as [recipeName now|n|n|tid|]; simpl.
  - destruct (String.eqb recipeName (name st)); [exact Hst|].
    assert (Hnone : timers (runCleanup st) = []).
    { destruct Hst as [Hid Hlen]. unfold runCleanup.
      destruct (cleanup st) as [tid|] eqn:Hc; simpl.
      - apply filter_all_out. intros t Hin.
        specialize (Hid t Hin). congruence.
      - destruct (timers st) as [|t l]; [reflexivity|].
        specialize (Hid t (or_introl eq_refl)). discriminate. }
    unfold loadEffect. cbn [name withName timers nextTimerId].
    destruct (JS.truthy recipeName); split; simpl; rewrite ?Hnone; simpl.
    + intros t [<-|[]]. reflexivity.
    + lia.
    + intros t [].
    + lia.
  - destruct (nth_error (preloads st) n) as [img|]; [|exact Hst].
    destruct (timersTidy_clear (timeoutId img) st Hst) as [H1 H2].
    split; simpl; assumption.
  - destruct (nth_error (preloads st) n) as [img|]; [|exact Hst].
    destruct (timersTidy_clear (timeoutId img) st Hst) as [H1 H2].
    split; simpl; assumption.
  - destruct (find (fun t => Nat.eqb (timerId t) tid) (timers st)) as [t|];
      [|exact Hst].
    destruct (timersTidy_clear tid st Hst) as [H1 H2].
    unfold onTimeout. destruct (closedImageLoading t); split; simpl; assumption.
  - destruct Hst. split; simpl; assumption.
Qed.

(** X18. However often the card is given another recipe and whatever
    happens to the images, at most one timeout is pending, and it is the one
    the cleanup of the effect will clear: no timeout of an earlier recipe is
    left behind. *)
Theorem at_most_one_timeout_pending (recipeName : string) (now : Z)
    (es : list Event) :
  let st := run es (mount recipeName now) in
  (length (timers st) <= 1)%nat
  /\ forall t, In t (timers st) -> cleanup st = Some (timerId t).
Proof.
  assert (H : timersTidy (run es (mount recipeName now))).
  { unfold run.
    assert (H0 : timersTidy (mount recipeName now)).
    { unfold mount, loadEffect. cbn [name initial].
      destruct (JS.truthy recipeName); split; simpl; try lia.
      intros t [<-|[]]. reflexivity. }
    revert H0. generalize (mount recipeName now).
    induction es as [|e es IH]; intros st Hst; simpl; [exact Hst|].
    apply IH, timersTidy_handle, Hst. }
  destruct H as [H1 H2]. split; assumption.
Qed.

(** X19. A card whose recipe name is empty never starts loading: as long as
    it is not given a recipe with a non-empty name, it keeps its loading
    flag set, with no timeout and no preload, whatever else happens. *)
Theorem unnamed_card_keeps_loading (now : Z) (es : list Event) :
  neverNamed es ->
  let st := run es (mount "" now) in
  imageLoading st = true /\ timers st = [] /\ preloads st = [].
Proof.
  intros Hes st. subst st. unfold run.
  assert (H0 : (imageLoading (mount "" now) = true /\ name (mount "" now) = "")
               /\ timers (mount "" now) = [] /\ preloads (mount "" now) = [])
    by (simpl; auto).
  revert H0 Hes. generalize (mount "" now).
  induction es as [|e es IH]; intros st [[Hl Hn] [Ht Hp]] Hes; simpl; [auto|].
  apply IH.
  - destruct e as [recipeName t|n|n|tid|]; simpl.
    + assert (recipeName = "") by (apply (Hes recipeName t); now left).
      subst recipeName. rewrite Hn. simpl. auto.
    + rewrite Hp. destruct n; simpl; auto.
    + rewrite Hp. destruct n; simpl; auto.
    + rewrite Ht. simpl. auto.
    + auto.
  - intros recipeName t Hin. apply (Hes recipeName t). now right.
Qed.


End RecipeCardLoading.

(** ** The voice-guidance panel: more on the controls *)
Section VoiceGuidanceMoreControls.

Import VoiceGuidance.

Variable instructions : list string.

(** X21. The step index never goes below 0, whatever the user does and
    whenever the timers run. *)
Theorem index_never_negative (es : list Event) (synthPresent : bool)
    (voices : list Voice) :
  0 <= currentStep (render (run instructions es (mount synthPresent voices))).
Proof.
  apply (run_invariant instructions (fun st => 0 <= currentStep (render st)));
    [simpl; lia|].
  intros e s Hs. rewrite render_dispatch.
  destruct e as [vs| | | | | | |langCode| |n]; simpl.
  - destruct (synthReady s); simpl; exact Hs.
  - unfold togglePlayPause.
    destruct (isPlaying (render s)), (isMuted (render s)); simpl; exact Hs.
  - unfold toggleMute.
    destruct (isPlaying (render s)), (isMuted (render s)); simpl; exact Hs.
  - unfold nextStep.
    destruct (currentStep (render s) <? lastIndex instructions); simpl; lia.
  - unfold prevStep. rewrite Z.gtb_ltb.
    destruct (Z.ltb_spec 0 (currentStep (render s))); simpl; lia.
  - exact Hs.
  - exact Hs.
  - unfold changeLanguage. destruct (isPlaying (render s)); [|exact Hs].
    cbn [synthReady toast setShowLanguageSelector setSelectedLanguage withRender].
    destruct (synthReady s); exact Hs.
  - destruct (speaking s) as [u|]; [|exact Hs].
    now rewrite currentStep_onend.
  - destruct (nth_error (timers s) n) as [[ms k]|]; [|exact Hs].
    destruct k as [| |env]; simpl; [lia|exact Hs|].
    rewrite render_speakCurrentStep. exact Hs.
Qed.

Lemma toggleMute_silent (st : State) :
  synthCoherent st ->
  isMuted (render st) = false \/ isPlaying (render st) = false ->
  let st' := dispatch instructions ToggleMute st in
  (isMuted (render st') = negb (isMuted (render st))
   /\ isPlaying (render st') = false)
  /\ speaking st' = None /\ spoken st' = spoken st.
Proof.
  intros Hc Hoff st'. subst st'.
  assert (Hr : isMuted (render (handle instructions ToggleMute st))
               = negb (isMuted (render st))
               /\ isPlaying (render (handle instructions ToggleMute st)) = false).
  { simpl. unfold toggleMute.
    destruct (isMuted (render st)) eqn:Em, (isPlaying (render st)) eqn:Ep;
      simpl; rewrite ?Em, ?Ep; auto.
    destruct Hoff; discriminate. }
  destruct Hr as [Hr1 Hr2]. unfold dispatch. rewrite render_commit.
  split; [split; assumption|].
  assert (Hs : spoken (handle instructions ToggleMute st) = spoken st).
  { simpl. unfold toggleMute.
    destruct (negb (isMuted (render st)) && isPlaying (render st))%bool;
      reflexivity. }
  rewrite <- Hs. apply commit_silences.
  - destruct (handle_quiet_or_respeak instructions ToggleMute st)
      as [Hq|[n [ms [env [Hcontra _]]]]]; [|discriminate].
    eapply synthCoherent_quiet; eauto.
  - unfold depsChanged. rewrite Hr1.
    destruct (isMuted (render st)); simpl; now rewrite andb_false_r.
  - now rewrite Hr2.
Qed.

(** X22. Unmuting does not resume playback: in every state the panel can
    reach, muting while it plays and then unmuting leaves it unmuted but
    paused and silent, with nothing new handed to the synthesiser. *)
Theorem unmute_does_not_resume (es : list Event) (synthPresent : bool)
    (voices : list Voice) :
  let st := run instructions es (mount synthPresent voices) in
  isPlaying (render st) = true -> isMuted (render st) = false ->
  let st' := run instructions [ToggleMute; ToggleMute] st in
  isMuted (render st') = false /\ isPlaying (render st') = false
  /\ speaking st' = None /\ spoken st' = spoken st.
Proof.
  intros st Hp Hm st'. subst st'. unfold run. cbn [fold_left].
  pose proof (run_synthCoherent instructions es synthPresent voices) as Hc.
  fold st in Hc.
  destruct (toggleMute_silent st Hc (or_introl Hm)) as [[Hm1 Hp1] [Hk1 Hs1]].
  pose proof (synthCoherent_dispatch instructions ToggleMute st Hc) as Hc1.
  destruct (toggleMute_silent _ Hc1 (or_intror Hp1)) as [[Hm2 Hp2] [Hk2 Hs2]].
  rewrite Hm2, Hm1, Hm, Hs2, Hs1. auto.
Qed.

(** X23. A language chosen while the panel is paused is the language of
    the next utterance: no timer is set, and pressing play afterwards speaks
    the current instruction with that language. *)
Theorem language_chosen_while_paused (langCode : string) (st : State)
    (instruction : string) :
  synthReady st = true ->
  instructionAt instructions (currentStep (render st)) = Some instruction ->
  instruction <> "" ->
  isPlaying (render st) = false -> isMuted (render st) = false ->
  let chosen := dispatch instructions (ChangeLanguage langCode) st in
  let st' := dispatch instructions TogglePlayPause chosen in
  timers chosen = timers st /\ spoken chosen = spoken st
  /\ exists u, speaking st' = Some u /\ uLang u = langCode
               /\ uText u = ("Step " ++ JS.numToString (currentStep (render st) + 1)
                                     ++ ": " ++ instruction)
               /\ spoken st' = (spoken st ++ [u])%list.
Proof.
  intros Hs Hi Hne Hp Hm chosen st'.
  assert (E : handle instructions (ChangeLanguage langCode) st
              = toast "Language Changed"
                  ("Voice guidance language set to " ++ languageName langCode) 3000
                  (setShowLanguageSelector false (setSelectedLanguage langCode st))).
  { simpl. unfold changeLanguage. now rewrite Hp. }
  assert (Hr : render chosen
               = render (setShowLanguageSelector false
                           (setSelectedLanguage langCode st)))
    by (subst chosen; rewrite render_dispatch, E; reflexivity).
  assert (Ht : timers chosen = timers st)
    by (subst chosen; unfold dispatch; rewrite timers_commit, E; reflexivity).
  assert (Hq : quiet st chosen).
  { subst chosen. unfold dispatch. rewrite E.
    destruct (commit_quiet_or_speaks instructions (render st)
                (toast "Language Changed"
                   ("Voice guidance language set to " ++ languageName langCode) 3000
                   (setShowLanguageSelector false (setSelectedLanguage langCode st))))
      as [Hq|[Hcontra _]].
    - eapply quiet_trans; [|exact Hq]. unfold quiet; simpl; auto.
    - simpl in Hcontra. congruence. }
  destruct Hq as [Hsp [_ [Hsr _]]].
  split; [exact Ht|]. split; [exact Hsp|].
  subst st'. rewrite (play_now instructions chosen instruction).
  - eexists. split; [reflexivity|]. simpl. rewrite Hr, Hsp. simpl. auto.
  - congruence.
  - now rewrite Hr.
  - exact Hne.
  - now rewrite Hr.
  - now rewrite Hr.
Qed.

(** X24. Skipping while the panel plays speaks the step skipped to at once:
    with a synthesiser, "next" below the last step and "previous" above the
    first replace what is being spoken by the utterance of the new step,
    when that instruction is not empty. *)
Theorem skipping_speaks_the_new_step (st : State) (instruction : string) :
  synthReady st = true ->
  isPlaying (render st) = true -> isMuted (render st) = false ->
  (currentStep (render st) < lastIndex instructions ->
   instructionAt instructions (currentStep (render st) + 1) = Some instruction ->
   instruction <> "" ->
   let st' := dispatch instructions NextStep st in
   currentStep (render st') = currentStep (render st) + 1
   /\ speaking st' = Some (utteranceFor (render st') instruction)
   /\ spoken st' = (spoken st ++ [utteranceFor (render st') instruction])%list)
  /\ (0 < currentStep (render st) ->
      instructionAt instructions (currentStep (render st) - 1) = Some instruction ->
      instruction <> "" ->
      let st' := dispatch instructions PrevStep st in
      currentStep (render st') = currentStep (render st) - 1
      /\ speaking st' = Some (utteranceFor (render st') instruction)
      /\ spoken st' = (spoken st ++ [utteranceFor (render st') instruction])%list).
Proof.
  intros Hs Hp Hm. split.
  - intros Hlt Hi Hne st'. subst st'.
    assert (E : handle instructions NextStep st
                = setCurrentStep (fun prev => prev + 1) st).
    { simpl. unfold nextStep.
      destruct (Z.ltb_spec (currentStep (render st)) (lastIndex instructions));
        [reflexivity|lia]. }
    unfold dispatch. rewrite E.
    rewrite (commit_speaks instructions _ _ instruction); simpl; auto.
    unfold depsChanged. simpl.
    assert (Hc : (currentStep (render st) =? currentStep (render st) + 1) = false)
      by (apply Z.eqb_neq; lia).
    now rewrite Hc, andb_false_r.
  - intros Hlt Hi Hne st'. subst st'.
    assert (E : handle instructions PrevStep st
                = setCurrentStep (fun prev => prev - 1) st).
    { simpl. unfold prevStep. rewrite Z.gtb_ltb.
      destruct (Z.ltb_spec 0 (currentStep (render st))); [reflexivity|lia]. }
    unfold dispatch. rewrite E.
    rewrite (commit_speaks instructions _ _ instruction); simpl; auto.
    unfold depsChanged. simpl.
    assert (Hc : (currentStep (render st) =? currentStep (render st) - 1) = false)
      by (apply Z.eqb_neq; lia).
    now rewrite Hc, andb_false_r.
Qed.

End VoiceGuidanceMoreControls.

Section RecipeCardStalePreload.

Import RecipeCard1.


End RecipeCardStalePreload.

(** ** Concrete runs *)
Section ConcreteRuns.

Import Samples.

Lemma spoken_utterances_read_instructions_witness :
  let u := VoiceGuidance.utteranceFor (VoiceGuidance.render playing) "Boil water" in
  In u (VoiceGuidance.spoken
          (VoiceGuidance.run twoSteps [VoiceGuidance.TogglePlayPause]
                             (VoiceGuidance.mount true [])))
  /\ VoiceGuidance.readsInstruction twoSteps u.
Proof.
  intros u.
  assert (Hin : In u (VoiceGuidance.spoken
                        (VoiceGuidance.run twoSteps [VoiceGuidance.TogglePlayPause]
                                           (VoiceGuidance.mount true []))))
    by (left; reflexivity).
  exact (conj Hin
           (spoken_utterances_read_instructions twoSteps
              [VoiceGuidance.TogglePlayPause] true [] u Hin)).
Defined.

Lemma pause_and_mute_silence_witness :
  (VoiceGuidance.isPlaying (VoiceGuidance.render playing) = true
   /\ VoiceGuidance.speaking
        (VoiceGuidance.dispatch twoSteps VoiceGuidance.TogglePlayPause playing) = None)
  /\ (VoiceGuidance.isMuted (VoiceGuidance.render playing) = false
      /\ VoiceGuidance.speaking
           (VoiceGuidance.dispatch twoSteps VoiceGuidance.ToggleMute playing) = None).
Proof.
  destruct (pause_and_mute_silence twoSteps [VoiceGuidance.TogglePlayPause] true [])
    as [Hpause Hmute].
  assert (Hp : VoiceGuidance.isPlaying (VoiceGuidance.render playing) = true)
    by reflexivity.
  assert (Hm : VoiceGuidance.isMuted (VoiceGuidance.render playing) = false)
    by reflexivity.
  exact (conj (conj Hp (proj1 (proj2 (Hpause Hp))))
              (conj Hm (proj1 (proj2 (proj2 (Hmute Hm)))))).
Defined.

Lemma navigation_round_trip_witness :
  let first := VoiceGuidance.mount true [] in
  let second := VoiceGuidance.dispatch twoSteps VoiceGuidance.NextStep first in
  (VoiceGuidance.lastIndex twoSteps
   <= VoiceGuidance.currentStep (VoiceGuidance.render second)
   /\ VoiceGuidance.dispatch twoSteps VoiceGuidance.NextStep second = second)
  /\ (VoiceGuidance.currentStep (VoiceGuidance.render first) <= 0
      /\ VoiceGuidance.dispatch twoSteps VoiceGuidance.PrevStep first = first)
  /\ (0 <= VoiceGuidance.currentStep (VoiceGuidance.render first)
           < VoiceGuidance.lastIndex twoSteps
      /\ VoiceGuidance.render
           (VoiceGuidance.dispatch twoSteps VoiceGuidance.PrevStep second)
         = VoiceGuidance.render first)
  /\ (0 < VoiceGuidance.currentStep (VoiceGuidance.render second)
          <= VoiceGuidance.lastIndex twoSteps
      /\ VoiceGuidance.render
           (VoiceGuidance.dispatch twoSteps VoiceGuidance.NextStep
              (VoiceGuidance.dispatch twoSteps VoiceGuidance.PrevStep second))
         = VoiceGuidance.render second).
Proof.
  intros first second.
  destruct (navigation_round_trip twoSteps first) as [_ [Hb [Hc _]]].
  destruct (navigation_round_trip twoSteps second) as [Ha [_ [_ Hd]]].
  assert (H1 : VoiceGuidance.lastIndex twoSteps
               <= VoiceGuidance.currentStep (VoiceGuidance.render second))
    by (vm_compute; discriminate).
  assert (H2 : VoiceGuidance.currentStep (VoiceGuidance.render first) <= 0)
    by (vm_compute; discriminate).
  assert (H3 : 0 <= VoiceGuidance.currentStep (VoiceGuidance.render first)
                  < VoiceGuidance.lastIndex twoSteps)
    by (split; [vm_compute; discriminate|reflexivity]).
  assert (H4 : 0 < VoiceGuidance.currentStep (VoiceGuidance.render second)
                 <= VoiceGuidance.lastIndex twoSteps)
    by (split; [reflexivity|vm_compute; discriminate]).
  exact (conj (conj H1 (Ha H1))
          (conj (conj H2 (Hb H2))
            (conj (conj H3 (Hc H3)) (conj H4 (Hd H4))))).
Defined.

Lemma disabled_buttons_match_handlers_witness :
  let first := VoiceGuidance.mount true [] in
  VoiceGuidance.inBounds twoSteps (VoiceGuidance.render first)
  /\ VoiceGuidance.prevDisabled (VoiceGuidance.render first) = true
  /\ VoiceGuidance.currentStep
       (VoiceGuidance.render
          (VoiceGuidance.dispatch twoSteps VoiceGuidance.PrevStep first))
     = VoiceGuidance.currentStep (VoiceGuidance.render first).
Proof.
  intros first.
  assert (Hb : VoiceGuidance.inBounds twoSteps (VoiceGuidance.render first))
    by (split; vm_compute; discriminate).
  destruct (disabled_buttons_match_handlers twoSteps first Hb) as [_ [Hprev _]].
  exact (conj Hb (conj eq_refl (Hprev eq_refl))).
Defined.

Lemma chooseVoice_sound_witness :
  (exists w, In w (VoiceGuidance.availableVoices englishRender)
             /\ VoiceGuidance.matchesLanguage
                  (VoiceGuidance.selectedLanguage englishRender) w = true
             /\ VoiceGuidance.isPreferred w = true)
  /\ VoiceGuidance.chooseVoice englishRender
     = Some (VoiceGuidance.mkVoice "Google US English" "en-US")
  /\ VoiceGuidance.isPreferred (VoiceGuidance.mkVoice "Google US English" "en-US")
     = true.
Proof.
  assert (Hex : exists w, In w (VoiceGuidance.availableVoices englishRender)
                          /\ VoiceGuidance.matchesLanguage
                               (VoiceGuidance.selectedLanguage englishRender) w = true
                          /\ VoiceGuidance.isPreferred w = true).
  { exists (VoiceGuidance.mkVoice "Google US English" "en-US").
    split; [right; right; left; reflexivity|split; reflexivity]. }
  pose proof (chooseVoice_sound englishRender) as H.
  change (VoiceGuidance.chooseVoice englishRender)
    with (Some (VoiceGuidance.mkVoice "Google US English" "en-US")) in H.
  destruct H as [_ [_ Hpref]].
  exact (conj Hex (conj eq_refl (Hpref Hex))).
Defined.

Lemma changeLanguage_toast_names_language_witness :
  (In ("es-ES", "Spanish") VoiceGuidance.languageOptions
   /\ VoiceGuidance.languageName "es-ES" = "Spanish")
  /\ ((forall name, ~ In ("nl-NL", name) VoiceGuidance.languageOptions)
      /\ VoiceGuidance.languageName "nl-NL" = "nl-NL").
Proof.
  destruct (changeLanguage_toast_names_language twoSteps "es-ES" playing)
    as [_ [Hknown _]].
  destruct (changeLanguage_toast_names_language twoSteps "nl-NL" playing)
    as [_ [_ Hunknown]].
  assert (Hin : In ("es-ES", "Spanish") VoiceGuidance.languageOptions)
    by (right; left; reflexivity).
  assert (Hout : forall name, ~ In ("nl-NL", name) VoiceGuidance.languageOptions).
  { intros name H. unfold VoiceGuidance.languageOptions in H. simpl in H.
    repeat (destruct H as [H|H]; [discriminate H|]). exact H. }
  exact (conj (conj Hin (Hknown "Spanish" Hin)) (conj Hout (Hunknown Hout))).
Defined.

Lemma play_speaks_current_step_witness :
  let paused := VoiceGuidance.mount true [] in
  let muted := VoiceGuidance.dispatch twoSteps VoiceGuidance.ToggleMute paused in
  (VoiceGuidance.isMuted (VoiceGuidance.render paused) = false
   /\ VoiceGuidance.isPlaying
        (VoiceGuidance.render
           (VoiceGuidance.dispatch twoSteps VoiceGuidance.TogglePlayPause paused))
      = true)
  /\ (VoiceGuidance.isMuted (VoiceGuidance.render muted) = true
      /\ VoiceGuidance.isPlaying
           (VoiceGuidance.render
              (VoiceGuidance.run twoSteps
                 [VoiceGuidance.TogglePlayPause; VoiceGuidance.Fire 0] muted))
         = true).
Proof.
  intros paused muted.
  assert (Hne : "Boil water" <> "") by discriminate.
  destruct (play_speaks_current_step twoSteps paused "Boil water"
              eq_refl eq_refl Hne eq_refl) as [Hnow _].
  destruct (play_speaks_current_step twoSteps muted "Boil water"
              eq_refl eq_refl Hne eq_refl) as [_ Hlater].
  assert (H1 : VoiceGuidance.isMuted (VoiceGuidance.render paused) = false)
    by reflexivity.
  assert (H2 : VoiceGuidance.isMuted (VoiceGuidance.render muted) = true)
    by reflexivity.
  exact (conj (conj H1 (proj1 (Hnow H1)))
              (conj H2 (proj1 (proj2 (Hlater H2))))).
Defined.

Lemma play_reads_every_step_in_order_witness :
  twoSteps <> []
  /\ Forall (fun x => x <> "") twoSteps
  /\ map VoiceGuidance.uText
       (VoiceGuidance.spoken
          (VoiceGuidance.run twoSteps
             [VoiceGuidance.TogglePlayPause; VoiceGuidance.UtteranceEnd;
              VoiceGuidance.Fire 0; VoiceGuidance.UtteranceEnd]
             (VoiceGuidance.mount true someVoices)))
     = ["Step 1: Boil water"; "Step 2: Add pasta"].
Proof.
  assert (Hne : twoSteps <> []) by discriminate.
  assert (Hall : Forall (fun x => x <> "") twoSteps)
    by (repeat constructor; discriminate).
  exact (conj Hne (conj Hall
           (proj1 (play_reads_every_step_in_order twoSteps someVoices Hne Hall)))).
Defined.

Lemma submit_then_reply_witness :
  ChatBot.allSpace (ChatBot.message asking) = false
  /\ map ChatBot.text
       (ChatBot.messages
          (ChatBot.run sampleMoodResponse
             [ChatBot.Submit 1700000000000; ChatBot.Fire 0 1700000001500] asking))
     = ["Any recipe?"; ChatBot.recipeResponse].
Proof.
  assert (H : ChatBot.allSpace (ChatBot.message asking) = false) by reflexivity.
  destruct (submit_then_reply sampleMoodResponse 1700000000000 1700000001500
              asking H) as [Hm _].
  split; [exact H|].
  exact (f_equal (map ChatBot.text) Hm).
Defined.


Lemma chat_window_states_witness :
  ChatBot.isOpen asking = true
  /\ ChatBot.isMinimized (ChatBot.toggleChat asking) = true
  /\ ChatBot.toggleChat (ChatBot.toggleChat asking) = asking.
Proof.
  destruct (chat_window_states asking) as [_ [_ Hopen]].
  assert (Ho : ChatBot.isOpen asking = true) by reflexivity.
  destruct (Hopen Ho) as [_ [Hmin Hback]].
  exact (conj Ho (conj Hmin Hback)).
Defined.

Lemma mood_change_is_answered_witness :
  ("happy" <> "" /\ ChatBot.isOpen asking = true)
  /\ map ChatBot.text
       (ChatBot.messages
          (ChatBot.run sampleMoodResponse
             [ChatBot.MoodEffect (Some "happy"); ChatBot.Fire 0 1700000000500;
              ChatBot.Fire 0 1700000002000] asking))
     = ["Recipes for a happy mood"]
  /\ (ChatBot.isOpen ChatBot.initial = false
      /\ ChatBot.moodEffect sampleMoodResponse (Some "happy") ChatBot.initial
         = ChatBot.initial).
Proof.
  assert (Hne : "happy" <> "") by discriminate.
  assert (Ho : ChatBot.isOpen asking = true) by reflexivity.
  assert (Hc : ChatBot.isOpen ChatBot.initial = false) by reflexivity.
  destruct (mood_change_is_answered sampleMoodResponse "happy"
              1700000000500 1700000002000 asking) as [_ Hopen].
  destruct (mood_change_is_answered sampleMoodResponse "happy"
              1700000000500 1700000002000 ChatBot.initial) as [[_ [_ Hclosed]] _].
  destruct (Hopen Hne Ho) as [_ [Hm _]].
  exact (conj (conj Hne Ho)
           (conj (f_equal (map ChatBot.text) Hm) (conj Hc (Hclosed Hc)))).
Defined.

Lemma at_most_one_timeout_pending_witness :
  let st := RecipeCard1.run
              [RecipeCard1.Rerendered "Beef Stew" 1700000002000;
               RecipeCard1.Rerendered "Lentil Curry" 1700000004000]
              (RecipeCard1.mount "Tomato Soup" 1700000000000) in
  let t := RecipeCard1.mkTimer 3 5000 true "Lentil Curry" in
  In t (RecipeCard1.timers st)
  /\ RecipeCard1.cleanup st = Some (RecipeCard1.timerId t)
  /\ (length (RecipeCard1.timers st) <= 1)%nat.
Proof.
  intros st t.
  destruct (at_most_one_timeout_pending "Tomato Soup" 1700000000000
              [RecipeCard1.Rerendered "Beef Stew" 1700000002000;
               RecipeCard1.Rerendered "Lentil Curry" 1700000004000])
    as [Hlen Hid].
  assert (Hin : In t (RecipeCard1.timers st)) by (left; reflexivity).
  exact (conj Hin (conj (Hid t Hin) Hlen)).
Defined.

Lemma unnamed_card_keeps_loading_witness :
  let es := [RecipeCard1.ElementError; RecipeCard1.TimeoutFired 1;
             RecipeCard1.Rerendered "" 1700000002000] in
  RecipeCard1.neverNamed es
  /\ RecipeCard1.imageLoading (RecipeCard1.run es (RecipeCard1.mount "" 1700000000000))
     = true.
Proof.
  intros es.
  assert (Hes : RecipeCard1.neverNamed es).
  { intros recipeName now [H|[H|[H|[]]]]; try discriminate H.
    now inversion H. }
  exact (conj Hes (proj1 (unnamed_card_keeps_loading 1700000000000 es Hes))).
Defined.


Lemma unmute_does_not_resume_witness :
  (VoiceGuidance.isPlaying (VoiceGuidance.render playing) = true
   /\ VoiceGuidance.isMuted (VoiceGuidance.render playing) = false)
  /\ VoiceGuidance.isPlaying
       (VoiceGuidance.render
          (VoiceGuidance.run twoSteps
             [VoiceGuidance.ToggleMute; VoiceGuidance.ToggleMute] playing))
     = false.
Proof.
  assert (Hp : VoiceGuidance.isPlaying (VoiceGuidance.render playing) = true)
    by reflexivity.
  assert (Hm : VoiceGuidance.isMuted (VoiceGuidance.render playing) = false)
    by reflexivity.
  exact (conj (conj Hp Hm)
           (proj1 (proj2 (unmute_does_not_resume twoSteps
                            [VoiceGuidance.TogglePlayPause] true [] Hp Hm)))).
Defined.

Lemma language_chosen_while_paused_witness :
  let paused := VoiceGuidance.mount true someVoices in
  "Boil water" <> ""
  /\ VoiceGuidance.isPlaying (VoiceGuidance.render paused) = false
  /\ exists u,
       VoiceGuidance.speaking
         (VoiceGuidance.run twoSteps
            [VoiceGuidance.ChangeLanguage "es-ES"; VoiceGuidance.TogglePlayPause]
            paused) = Some u
       /\ VoiceGuidance.uLang u = "es-ES".
Proof.
  intros paused.
  assert (Hne : "Boil water" <> "") by discriminate.
  destruct (language_chosen_while_paused twoSteps "es-ES" paused "Boil water"
              eq_refl eq_refl Hne eq_refl eq_refl) as [_ [_ [u [Hu [Hl _]]]]].
  split; [exact Hne|]. split; [reflexivity|].
  exists u. exact (conj Hu Hl).
Defined.

Lemma skipping_speaks_the_new_step_witness :
  (VoiceGuidance.currentStep (VoiceGuidance.render playing)
   < VoiceGuidance.lastIndex twoSteps /\ "Add pasta" <> "")
  /\ option_map VoiceGuidance.uText
       (VoiceGuidance.speaking
          (VoiceGuidance.dispatch twoSteps VoiceGuidance.NextStep playing))
     = Some "Step 2: Add pasta".
Proof.
  assert (Hlt : VoiceGuidance.currentStep (VoiceGuidance.render playing)
                < VoiceGuidance.lastIndex twoSteps) by reflexivity.
  assert (Hne : "Add pasta" <> "") by discriminate.
  destruct (skipping_speaks_the_new_step twoSteps playing "Add pasta"
              eq_refl eq_refl eq_refl) as [Hnext _].
  destruct (Hnext Hlt eq_refl Hne) as [_ [Hu _]].
  exact (conj (conj Hlt Hne) (f_equal (option_map VoiceGuidance.uText) Hu)).
Defined.


End ConcreteRuns.
